(** * Prescripto-backend: the pharmacy directory

    A shallow embedding of [src/models/pharmacy.js] (the Mongoose schema)
    and [src/routes/pharmacies.js] (the five Express route handlers), and
    the properties of the specification proved, or refuted, over it.

    The handlers talk to MongoDB through Mongoose.  The collection is
    modelled as the list of its documents in insertion order, a request as
    a function from the collection (and the values the environment
    supplies: the clock, the generated ObjectId) to a response and the new
    collection.  Mongoose's part (setters, validators, the unique index,
    the casting of an id, timestamps) is modelled from the options the
    schema sets.

    Modelling boundaries, stated once:
    - a JS string is a [string] whose characters are the UTF-16 code units
      below 256 (Latin-1); case mapping and white space are those of
      ECMAScript on that range;
    - a JS number is a rational ([Q]): the schema only compares numbers
      with 0 and 6;
    - a request body is an object whose present fields hold JSON values of
      the type the schema declares for them (a field that is absent, or
      [undefined], is [None]); values of another JSON type, [null], and
      keys that are not paths of the schema are outside the model;
    - the value of a list filter is compiled as a regular expression;
      the grammar is modelled for pattern characters and the dot, a
      source that starts with a quantifier throws, and what becomes of
      any other source is a parameter ([RegExp.Engine]) of the list
      handler;
    - a key of an update payload is a top-level path of the schema: a
      dotted key such as [address.city] is outside the model;
    - Mongoose's version key [__v] is left out. *)

From Stdlib Require Import List String Ascii Bool ZArith NArith QArith Lia.
From Stdlib Require Import DecimalString.
From Stdlib Require Import Sorting.Sorted Sorting.Permutation.
Import ListNotations.

Local Close Scope Q_scope.
Local Open Scope string_scope.
Local Open Scope bool_scope.
Local Open Scope list_scope.

(* ================================================================== *)
(** * JavaScript strings *)
(* ================================================================== *)

Module Js.

Definition code (c : ascii) : N := N_of_ascii c.

Definition between (lo hi : N) (c : ascii) : bool :=
  (lo <=? code c)%N && (code c <=? hi)%N.

(** ECMAScript WhiteSpace and LineTerminator below 256: TAB, LF, VT,
    FF, CR, SP and NBSP.  This is what [String.prototype.trim] strips
    and what [\s] matches. *)
Definition isWhiteSpace (c : ascii) : bool :=
  between 9 13 c || (code c =? 32)%N || (code c =? 160)%N.

(** The line feed. *)
Definition isLineFeed (c : ascii) : bool := (code c =? 10)%N.

Definition isDigit (c : ascii) : bool := between 48 57 c.

Definition shift_up (c : ascii) : ascii := ascii_of_N (code c + 32).
Definition shift_down (c : ascii) : ascii := ascii_of_N (code c - 32).

(** [String.prototype.toLowerCase] on one code unit below 256:
    A-Z, and U+00C0-U+00DE except the multiplication sign U+00D7. *)
Definition toLowerChar (c : ascii) : ascii :=
  if between 65 90 c then shift_up c
  else if between 192 222 c && negb (code c =? 215)%N then shift_up c
  else c.

(** The Canonicalize operation of a RegExp with the [i] flag (and no
    [u] flag): the upper-case form when that is one code unit.  a-z,
    and U+00E0-U+00FE except the division sign U+00F7.  The upper-case
    forms of U+00B5 and U+00FF lie above 255 and are shared with no
    other code unit below 256, U+00DF has none of one unit: the three
    are left as they are. *)
Definition canonicalize (c : ascii) : ascii :=
  if between 97 122 c then shift_down c
  else if between 224 254 c && negb (code c =? 247)%N then shift_down c
  else c.

Fixpoint map_string (f : ascii -> ascii) (s : string) : string :=
  match s with
  | EmptyString => EmptyString
  | String c t => String (f c) (map_string f t)
  end.

Definition toLowerCase (s : string) : string := map_string toLowerChar s.

Fixpoint trimStart (s : string) : string :=
  match s with
  | EmptyString => EmptyString
  | String c t => if isWhiteSpace c then trimStart t else s
  end.

Fixpoint trimEnd (s : string) : string :=
  match s with
  | EmptyString => EmptyString
  | String c t =>
      match trimEnd t with
      | EmptyString => if isWhiteSpace c then EmptyString else String c EmptyString
      | t' => String c t'
      end
  end.

(** [String.prototype.trim]. *)
Definition trim (s : string) : string := trimEnd (trimStart s).

(** The 256 code units. *)
Definition allChars : list ascii := map ascii_of_nat (seq 0 256).

Definition isEmpty (s : string) : bool :=
  match s with EmptyString => true | _ => false end.

Definition chars (s : string) : list ascii := list_ascii_of_string s.

(** [p] is a prefix of [l], characters compared by [eqc]. *)
Fixpoint prefix_by (eqc : ascii -> ascii -> bool) (p l : list ascii) : bool :=
  match p, l with
  | [], _ => true
  | _ :: _, [] => false
  | a :: p', b :: l' => eqc a b && prefix_by eqc p' l'
  end.

(** [p] occurs in [l] as a run of consecutive characters. *)
Fixpoint infix_by (eqc : ascii -> ascii -> bool) (p l : list ascii) : bool :=
  prefix_by eqc p l ||
  match l with
  | [] => false
  | _ :: l' => infix_by eqc p l'
  end.

Definition eq_ignoreCase (a b : ascii) : bool :=
  Ascii.eqb (canonicalize a) (canonicalize b).


End Js.

(* ================================================================== *)
(** * Regular expressions *)
(* ================================================================== *)

Module RegExp.

(** The regular expressions of the source use character classes,
    sequence, alternation and [+]; none has a back-reference or a
    look-around, so a pattern denotes a regular language and [test] is
    decided with derivatives. *)
Inductive regex : Type :=
| Void : regex
| Eps : regex
| Class (f : ascii -> bool) : regex
| Seq (r1 r2 : regex) : regex
| Alt (r1 r2 : regex) : regex
| Star (r : regex) : regex.

Definition Plus (r : regex) : regex := Seq r (Star r).

Definition Chr (c : ascii) : regex := Class (Ascii.eqb c).

(** [[abc]]: one of the listed characters. *)
Definition OneOf (s : string) : regex :=
  Class (fun c => existsb (Ascii.eqb c) (Js.chars s)).

(** [\d], [\S] and "any code unit". *)
Definition Digit : regex := Class Js.isDigit.
Definition NonSpace : regex := Class (fun c => negb (Js.isWhiteSpace c)).
Definition AnyChar : regex := Class (fun _ => true).

(** [.] without the [s] flag, in a pattern that a query carries to the
    store: the server's engine (PCRE) evaluates it, and there the dot
    matches every character but the line feed. *)
Definition Dot : regex := Class (fun c => negb (Js.isLineFeed c)).

Fixpoint nullable (r : regex) : bool :=
  match r with
  | Void => false
  | Eps => true
  | Class _ => false
  | Seq r1 r2 => nullable r1 && nullable r2
  | Alt r1 r2 => nullable r1 || nullable r2
  | Star _ => true
  end.

Fixpoint deriv (c : ascii) (r : regex) : regex :=
  match r with
  | Void => Void
  | Eps => Void
  | Class f => if f c then Eps else Void
  | Seq r1 r2 =>
      if nullable r1 then Alt (Seq (deriv c r1) r2) (deriv c r2)
      else Seq (deriv c r1) r2
  | Alt r1 r2 => Alt (deriv c r1) (deriv c r2)
  | Star r1 => Seq (deriv c r1) (Star r1)
  end.

Fixpoint matches (r : regex) (l : list ascii) : bool :=
  match l with
  | [] => nullable r
  | c :: l' => matches (deriv c r) l'
  end.

(** The language of a pattern, for the statements. *)
Inductive lang : regex -> list ascii -> Prop :=
| L_eps : lang Eps []
| L_class f c : f c = true -> lang (Class f) [c]
| L_seq r1 r2 l1 l2 : lang r1 l1 -> lang r2 l2 -> lang (Seq r1 r2) (l1 ++ l2)
| L_alt_l r1 r2 l : lang r1 l -> lang (Alt r1 r2) l
| L_alt_r r1 r2 l : lang r2 l -> lang (Alt r1 r2) l
| L_star_nil r : lang (Star r) []
| L_star_app r l1 l2 : lang r l1 -> lang (Star r) l2 -> lang (Star r) (l1 ++ l2).

(** A RegExp object: the pattern between a leading [^] and a trailing
    [$], if any.  No regular expression of the source has the [m] flag:
    [^] and [$] are the two ends of the subject. *)
Record JsRegExp : Type := mkRegExp {
  fromStart : bool;
  pattern : regex;
  toEnd : bool
}.

(** [RegExp.prototype.test], and the match of a regular expression of a
    query by the store: some substring matches the pattern, at the start
    of the subject under [^], up to its end under [$]. *)
Definition test (re : JsRegExp) (s : string) : bool :=
  matches
    (Seq (if fromStart re then Eps else Star AnyChar)
         (Seq (pattern re) (if toEnd re then Eps else Star AnyChar)))
    (Js.chars s).

(** SyntaxCharacter of the ECMAScript pattern grammar. *)
Definition isSyntaxCharacter (c : ascii) : bool :=
  existsb (Ascii.eqb c) (Js.chars "^$\.*+?()[]{}|").

(** A pattern character under the [i] flag. *)
Definition CharIgnoreCase (c : ascii) : regex := Class (Js.eq_ignoreCase c).

(** The part of the pattern grammar that is modelled for patterns that
    come from a request: a sequence of pattern characters and [.]. *)
Fixpoint parse_ignoreCase (p : list ascii) : option regex :=
  match p with
  | [] => Some Eps
  | c :: p' =>
      match parse_ignoreCase p' with
      | None => None
      | Some r =>
          if Ascii.eqb c "."%char then Some (Seq Dot r)
          else if isSyntaxCharacter c then None
          else Some (Seq (CharIgnoreCase c) r)
      end
  end.

(** [new RegExp(source, 'i')] on the modelled part of the grammar.
    [None]: the source uses a syntax character other than [.]. *)
Definition new_ignoreCase (source : string) : option JsRegExp :=
  match parse_ignoreCase (Js.chars source) with
  | Some r => Some (mkRegExp false r false)
  | None => None
  end.

(** What becomes of the source of a regular expression that a request
    brings: the constructor throws a SyntaxError, or the store refuses
    the pattern, and the handler is in its [catch]; or the pattern is
    built and the store matches subjects against it. *)
Inductive Compiled : Type :=
| Throws
| Matches (m : string -> bool).

(** The rest of the grammar of regular expressions: what the
    constructor and the store do with a source that holds a syntax
    character other than [.] is not modelled, and is taken as given. *)
Definition Engine : Type := string -> Compiled.

(** A source that starts with a quantifier has nothing to repeat: the
    constructor throws. *)
Definition startsWithQuantifier (source : string) : bool :=
  match Js.chars source with
  | c :: _ => existsb (Ascii.eqb c) (Js.chars "*+?")
  | [] => false
  end.

(** [new RegExp(source, 'i')], handed to the store. *)
Definition compile (other : Engine) (source : string) : Compiled :=
  match new_ignoreCase source with
  | Some re => Matches (test re)
  | None => if startsWithQuantifier source then Throws else other source
  end.


End RegExp.

(* ================================================================== *)
(** * The schema ([src/models/pharmacy.js]) *)
(* ================================================================== *)

Module Schema.

Definition Number : Type := Q.
(** Milliseconds since the epoch. *)
Definition Date : Type := Z.
(** The twelve bytes of an ObjectId, as a number. *)
Definition ObjectId : Type := N.

Bind Scope Q_scope with Number.
Bind Scope Z_scope with Date.
Bind Scope N_scope with ObjectId.

(** [addressSchema].  A field that is not set is [None]; [coordinates]
    is a nested path with two optional numbers. *)
Record Address : Type := mkAddress {
  street : option string;
  city : option string;
  state : option string;
  zipCode : option string;
  country : option string;
  latitude : option Number;
  longitude : option Number
}.

(** [openingHoursSchema]. *)
Record OpeningHours : Type := mkOpeningHours {
  dayOfWeek : option Number;
  openTime : option string;
  closeTime : option string
}.

(** The plain object given to [new Pharmacy(...)] or to [$set]: the
    paths of [pharmacySchema], each present or not. *)
Record Fields : Type := mkFields {
  f_name : option string;
  f_address : option Address;
  f_phoneNumber : option string;
  f_email : option string;
  f_website : option string;
  f_licenseNumber : option string;
  f_servicesOffered : option (list string);
  f_openingHours : option (list OpeningHours);
  f_isActive : option bool
}.

(** A Pharmacy document, in memory or in the collection. *)
Record Pharmacy : Type := mkPharmacy {
  _id : ObjectId;
  name : option string;
  address : option Address;
  phoneNumber : option string;
  email : option string;
  website : option string;
  licenseNumber : option string;
  servicesOffered : list string;
  openingHours : list OpeningHours;
  isActive : bool;
  createdAt : option Date;
  updatedAt : option Date
}.

(** ** The regular expressions of the schema *)

(** [/^([01]\d|2[0-3]):([0-5]\d)$/] *)
Definition timeRegExp : RegExp.JsRegExp :=
  RegExp.mkRegExp true
    (RegExp.Seq
       (RegExp.Alt (RegExp.Seq (RegExp.OneOf "01") RegExp.Digit)
                   (RegExp.Seq (RegExp.Chr "2") (RegExp.OneOf "0123")))
       (RegExp.Seq (RegExp.Chr ":")
                   (RegExp.Seq (RegExp.OneOf "012345") RegExp.Digit)))
    true.

(** [/\S+@\S+\.\S+/] *)
Definition emailRegExp : RegExp.JsRegExp :=
  RegExp.mkRegExp false
    (RegExp.Seq (RegExp.Plus RegExp.NonSpace)
       (RegExp.Seq (RegExp.Chr "@")
          (RegExp.Seq (RegExp.Plus RegExp.NonSpace)
             (RegExp.Seq (RegExp.Chr ".") (RegExp.Plus RegExp.NonSpace)))))
    false.

(** ** Setters and defaults *)

(** [trim: true] *)
Definition set_trim (v : option string) : option string :=
  option_map Js.trim v.

(** [trim: true, lowercase: true] *)
Definition set_email (v : option string) : option string :=
  option_map (fun s => Js.toLowerCase (Js.trim s)) v.

(** Casting a plain object to an [addressSchema] subdocument: the
    setters, and [default: "USA"] for a country that is not given. *)
Definition castAddress (a : Address) : Address :=
  {| street := set_trim (street a);
     city := set_trim (city a);
     state := set_trim (state a);
     zipCode := set_trim (zipCode a);
     country := match country a with
                | Some c => Some (Js.trim c)
                | None => Some "USA"
                end;
     latitude := latitude a;
     longitude := longitude a |}.

(** The setters of the paths of [pharmacySchema], applied to the
    fields of a plain object. *)
Definition castFields (f : Fields) : Fields :=
  {| f_name := set_trim (f_name f);
     f_address := option_map castAddress (f_address f);
     f_phoneNumber := set_trim (f_phoneNumber f);
     f_email := set_email (f_email f);
     f_website := set_trim (f_website f);
     f_licenseNumber := set_trim (f_licenseNumber f);
     f_servicesOffered := option_map (map Js.trim) (f_servicesOffered f);
     f_openingHours := f_openingHours f;
     f_isActive := f_isActive f |}.

(** ** Validators *)

(** The [kind] of a ValidatorError. *)
Inductive ValidatorKind : Type := required | regexp | min | max.

(** The [errors] object of a ValidationError: path and kind. *)
Definition ValidationErrors : Type := list (string * ValidatorKind).

(** [required] on a String path: a string that is not empty. *)
Definition checkRequired (v : option string) : bool :=
  match v with
  | Some s => negb (Js.isEmpty s)
  | None => false
  end.

Definition v_required (path : string) (v : option string) : ValidationErrors :=
  if checkRequired v then [] else [(path, required)].

(** [match]: Mongoose's validator passes a value that is not set and
    the empty string, and tests the others. *)
Definition checkMatch (re : RegExp.JsRegExp) (v : option string) : bool :=
  match v with
  | Some s => Js.isEmpty s || RegExp.test re s
  | None => true
  end.

Definition v_match (re : RegExp.JsRegExp) (path : string) (v : option string)
  : ValidationErrors :=
  if checkMatch re v then [] else [(path, regexp)].

(** [required], [min: 0], [max: 6] on a Number path. *)
Definition v_number (path : string) (v : option Number) : ValidationErrors :=
  match v with
  | None => [(path, required)]
  | Some n =>
      (if Qle_bool 0 n then [] else [(path, min)]) ++
      (if Qle_bool n 6 then [] else [(path, max)])
  end.

Definition validateAddress (prefix : string) (a : Address) : ValidationErrors :=
  v_required (prefix ++ "street")%string (street a) ++
  v_required (prefix ++ "city")%string (city a) ++
  v_required (prefix ++ "state")%string (state a) ++
  v_required (prefix ++ "zipCode")%string (zipCode a) ++
  v_required (prefix ++ "country")%string (country a).

Definition validateOpeningHours (prefix : string) (h : OpeningHours)
  : ValidationErrors :=
  v_number (prefix ++ "dayOfWeek")%string (dayOfWeek h) ++
  v_required (prefix ++ "openTime")%string (openTime h) ++
  v_match timeRegExp (prefix ++ "openTime")%string (openTime h) ++
  v_required (prefix ++ "closeTime")%string (closeTime h) ++
  v_match timeRegExp (prefix ++ "closeTime")%string (closeTime h).

Definition index_path (i : nat) : string :=
  ("openingHours." ++ NilEmpty.string_of_uint (Nat.to_uint i) ++ ".")%string.

(** The elements of [openingHours], the first at index [i]. *)
Fixpoint validateHoursFrom (i : nat) (l : list OpeningHours) : ValidationErrors :=
  match l with
  | [] => []
  | h :: l' => validateOpeningHours (index_path i) h ++ validateHoursFrom (S i) l'
  end.

(** [doc.validate()]: every path of the document. *)
Definition validate (p : Pharmacy) : ValidationErrors :=
  v_required "name" (name p) ++
  match address p with
  | None => [("address", required)]
  | Some a => validateAddress "address." a
  end ++
  v_required "phoneNumber" (phoneNumber p) ++
  v_match emailRegExp "email" (email p) ++
  v_required "licenseNumber" (licenseNumber p) ++
  validateHoursFrom 0 (openingHours p).

(** Update validators ([runValidators: true]): the paths that the
    update sets, and only those. *)
Definition validateUpdate (f : Fields) : ValidationErrors :=
  match f_name f with Some _ => v_required "name" (f_name f) | None => [] end ++
  match f_address f with Some a => validateAddress "address." a | None => [] end ++
  match f_phoneNumber f with
  | Some _ => v_required "phoneNumber" (f_phoneNumber f) | None => [] end ++
  v_match emailRegExp "email" (f_email f) ++
  match f_licenseNumber f with
  | Some _ => v_required "licenseNumber" (f_licenseNumber f) | None => [] end ++
  match f_openingHours f with Some l => validateHoursFrom 0 l | None => [] end.

End Schema.

(* ================================================================== *)
(** * The model [Pharmacy] over its collection *)
(* ================================================================== *)

Module Model.
Import Schema.

(** The documents of the collection, in insertion order. *)
Definition Collection : Type := list Pharmacy.

(** What an operation of the model throws. *)
Inductive MongooseError : Type :=
| ValidationError (errors : ValidationErrors)
| MongoServerError (code : Z)
| CastError (kind : string).

(** The properties of the error object that the handlers read. *)
Definition err_code (e : MongooseError) : option Z :=
  match e with MongoServerError c => Some c | _ => None end.

Definition err_name (e : MongooseError) : string :=
  match e with
  | ValidationError _ => "ValidationError"
  | MongoServerError _ => "MongoServerError"
  | CastError _ => "CastError"
  end.

Definition err_kind (e : MongooseError) : option string :=
  match e with CastError k => Some k | _ => None end.

Definition err_errors (e : MongooseError) : ValidationErrors :=
  match e with ValidationError errs => errs | _ => [] end.

(** A call that returns or throws. *)
Definition Result (A : Type) : Type := (MongooseError + A)%type.

Definition ret {A : Type} (a : A) : Result A := inr a.
Definition throw {A : Type} (e : MongooseError) : Result A := inl e.
Definition bind {A B : Type} (m : Result A) (k : A -> Result B) : Result B :=
  match m with
  | inl e => inl e
  | inr a => k a
  end.

Notation "x <- m ;; k" := (bind m (fun x => k))
  (at level 61, m at next level, right associativity).

(** E11000, the duplicate key error of the server. *)
Definition E11000 : Z := 11000.

Definition eqb_field (a b : option string) : bool :=
  match a, b with
  | Some x, Some y => String.eqb x y
  | None, None => true
  | _, _ => false
  end.

(** ** Ids *)

Definition hexDigit (c : ascii) : option N :=
  if Js.between 48 57 c then Some (Js.code c - 48)%N
  else if Js.between 97 102 c then Some (Js.code c - 87)%N
  else if Js.between 65 70 c then Some (Js.code c - 55)%N
  else None.

Fixpoint parseHex (acc : N) (l : list ascii) : option N :=
  match l with
  | [] => Some acc
  | c :: l' =>
      match hexDigit c with
      | Some d => parseHex (16 * acc + d)%N l'
      | None => None
      end
  end.

(** Casting the string of a route parameter to an ObjectId: 24
    hexadecimal digits; anything else is a CastError of kind
    ObjectId. *)
Definition castObjectId (s : string) : Result ObjectId :=
  if Nat.eqb (String.length s) 24 then
    match parseHex 0 (Js.chars s) with
    | Some n => ret n
    | None => throw (CastError "ObjectId")
    end
  else throw (CastError "ObjectId").

(** ** Documents *)

(** [new Pharmacy(obj)] with the generated [_id]: setters, the empty
    array for an array path that is not given, [default: true]. *)
Definition new (oid : ObjectId) (obj : Fields) : Pharmacy :=
  let f := castFields obj in
  {| _id := oid;
     name := f_name f;
     address := f_address f;
     phoneNumber := f_phoneNumber f;
     email := f_email f;
     website := f_website f;
     licenseNumber := f_licenseNumber f;
     servicesOffered := match f_servicesOffered f with Some l => l | None => [] end;
     openingHours := match f_openingHours f with Some l => l | None => [] end;
     isActive := match f_isActive f with Some b => b | None => true end;
     createdAt := None;
     updatedAt := None |}.

Definition set_isActive (b : bool) (p : Pharmacy) : Pharmacy :=
  {| _id := _id p; name := name p; address := address p;
     phoneNumber := phoneNumber p; email := email p; website := website p;
     licenseNumber := licenseNumber p; servicesOffered := servicesOffered p;
     openingHours := openingHours p; isActive := b;
     createdAt := createdAt p; updatedAt := updatedAt p |}.

Definition set_updatedAt (now : Date) (p : Pharmacy) : Pharmacy :=
  {| _id := _id p; name := name p; address := address p;
     phoneNumber := phoneNumber p; email := email p; website := website p;
     licenseNumber := licenseNumber p; servicesOffered := servicesOffered p;
     openingHours := openingHours p; isActive := isActive p;
     createdAt := createdAt p; updatedAt := Some now |}.

(** [timestamps: true] on a new document. *)
Definition set_timestamps (now : Date) (p : Pharmacy) : Pharmacy :=
  {| _id := _id p; name := name p; address := address p;
     phoneNumber := phoneNumber p; email := email p; website := website p;
     licenseNumber := licenseNumber p; servicesOffered := servicesOffered p;
     openingHours := openingHours p; isActive := isActive p;
     createdAt := Some now; updatedAt := Some now |}.

Definition orElse {A : Type} (v : option A) (old : A) : A :=
  match v with Some a => a | None => old end.

Definition orKeep {A : Type} (v old : option A) : option A :=
  match v with Some a => Some a | None => old end.

(** [{ $set: f }] on a document: a path that [f] holds is replaced, as
    a whole; the others are left as they are. *)
Definition applySet (f : Fields) (p : Pharmacy) : Pharmacy :=
  {| _id := _id p;
     name := orKeep (f_name f) (name p);
     address := orKeep (f_address f) (address p);
     phoneNumber := orKeep (f_phoneNumber f) (phoneNumber p);
     email := orKeep (f_email f) (email p);
     website := orKeep (f_website f) (website p);
     licenseNumber := orKeep (f_licenseNumber f) (licenseNumber p);
     servicesOffered := orElse (f_servicesOffered f) (servicesOffered p);
     openingHours := orElse (f_openingHours f) (openingHours p);
     isActive := orElse (f_isActive f) (isActive p);
     createdAt := createdAt p;
     updatedAt := updatedAt p |}.

(** ** The collection *)

Definition findOne (oid : ObjectId) (coll : Collection) : option Pharmacy :=
  find (fun d => N.eqb (_id d) oid) coll.

(** The first document with this [_id] is rewritten. *)
Fixpoint updateOne (oid : ObjectId) (f : Pharmacy -> Pharmacy) (coll : Collection)
  : Collection :=
  match coll with
  | [] => []
  | d :: coll' =>
      if N.eqb (_id d) oid then f d :: coll'
      else d :: updateOne oid f coll'
  end.

(** The unique indexes ([_id], and [unique: true] on [licenseNumber])
    refuse a new document whose key is that of a stored one. *)
Definition duplicateKey (coll : Collection) (p : Pharmacy) : bool :=
  existsb (fun d => N.eqb (_id d) (_id p)
                    || eqb_field (licenseNumber d) (licenseNumber p)) coll.

Definition insertOne (coll : Collection) (p : Pharmacy) : Result Collection :=
  if duplicateKey coll p then throw (MongoServerError E11000)
  else ret (coll ++ [p]).

(** Rewriting a document to [p] moves its key in the index of
    [licenseNumber] when the key changes, and the new key must be
    free. *)
Definition keyTaken (coll : Collection) (old p : Pharmacy) : bool :=
  negb (eqb_field (licenseNumber old) (licenseNumber p))
  && existsb (fun d => eqb_field (licenseNumber d) (licenseNumber p)) coll.

Definition validated (p : Pharmacy) : Result unit :=
  match validate p with
  | [] => ret tt
  | errs => throw (ValidationError errs)
  end.

(** [doc.save()] on a new document: timestamps, validation, insert. *)
Definition save_new (now : Date) (doc : Pharmacy) (coll : Collection)
  : Result (Pharmacy * Collection) :=
  let doc' := set_timestamps now doc in
  _ <- validated doc' ;;
  coll' <- insertOne coll doc' ;;
  ret (doc', coll').

(** [doc.save()] on the document [doc], loaded as [loaded], after the
    handler has assigned [isActive]: validation; then, when the
    assignment changed the value, the write of [isActive] and of
    [updatedAt]; no write at all when nothing is modified. *)
Definition save_loaded (now : Date) (loaded doc : Pharmacy) (coll : Collection)
  : Result Collection :=
  _ <- validated doc ;;
  if Bool.eqb (isActive loaded) (isActive doc) then ret coll
  else ret (updateOne (_id doc)
              (fun d => set_updatedAt now (set_isActive (isActive doc) d)) coll).

(** [Pharmacy.findById(id)] *)
Definition findById (id : string) (coll : Collection) : Result (option Pharmacy) :=
  oid <- castObjectId id ;;
  ret (findOne oid coll).

(** [Pharmacy.findByIdAndUpdate(id, { $set: f }, { new: true,
    runValidators: true })]: the setters and the update validators on
    the paths of [f], then the write with [updatedAt], and the document
    as it is after the write. *)
Definition findByIdAndUpdate (now : Date) (id : string) (f : Fields)
    (coll : Collection) : Result (option Pharmacy * Collection) :=
  oid <- castObjectId id ;;
  let f' := castFields f in
  match validateUpdate f' with
  | [] =>
      match findOne oid coll with
      | None => ret (None, coll)
      | Some old =>
          let p := set_updatedAt now (applySet f' old) in
          if keyTaken coll old p then throw (MongoServerError E11000)
          else ret (Some p, updateOne oid (fun _ => p) coll)
      end
  | errs => throw (ValidationError errs)
  end.

(** ** Queries *)

(** [{ isActive: true, 'address.city': re1, servicesOffered: { $in:
    [re2] } }], the two regular expressions optional, each as the
    subjects that it matches. *)
Record Filter : Type := mkFilter {
  byCity : option (string -> bool);
  byService : option (string -> bool)
}.

Definition cityOf (p : Pharmacy) : option string :=
  match address p with
  | Some a => city a
  | None => None
  end.

Definition satisfies (flt : Filter) (p : Pharmacy) : bool :=
  isActive p
  && match byCity flt with
     | None => true
     | Some m =>
         match cityOf p with
         | Some c => m c
         | None => false
         end
     end
  && match byService flt with
     | None => true
     | Some m => existsb m (servicesOffered p)
     end.

(** The order of [sort({ name: 1 })]: a document without a name first,
    names by their code units. *)
Definition name_leb (p q : Pharmacy) : bool :=
  match name p, name q with
  | None, _ => true
  | Some _, None => false
  | Some a, Some b => String.leb a b
  end.

Fixpoint insert_sorted (p : Pharmacy) (l : list Pharmacy) : list Pharmacy :=
  match l with
  | [] => [p]
  | q :: l' => if name_leb p q then p :: l else q :: insert_sorted p l'
  end.

Definition sort_by_name (l : list Pharmacy) : list Pharmacy :=
  fold_right insert_sorted [] l.

(** [Pharmacy.find(filter).sort({ name: 1 })] *)
Definition find_sorted (flt : Filter) (coll : Collection) : list Pharmacy :=
  sort_by_name (filter (satisfies flt) coll).

End Model.

(* ================================================================== *)
(** * The route handlers ([src/routes/pharmacies.js]) *)
(* ================================================================== *)

Module Routes.
Import Schema Model.

(** What a handler sends. *)
Inductive Payload : Type :=
| json_doc (p : Pharmacy)
| json_null
| json_docs (l : list Pharmacy)
| json_msg (msg : string)
| json_errors (msg : string) (errors : ValidationErrors)
| send_text (text : string).

Record Response : Type := mkResponse {
  status : Z;
  payload : Payload
}.

(** [res.json(x)] without [res.status] answers 200. *)
Definition res_json (x : Payload) : Response := mkResponse 200 x.

Definition is_code (c : Z) (e : MongooseError) : bool :=
  match err_code e with
  | Some c' => Z.eqb c' c
  | None => false
  end.

Definition is_name (n : string) (e : MongooseError) : bool :=
  String.eqb (err_name e) n.

Definition is_kind (k : string) (e : MongooseError) : bool :=
  match err_kind e with
  | Some k' => String.eqb k' k
  | None => false
  end.

(** ** POST / *)

Definition post_catch (err : MongooseError) : Response :=
  if is_code 11000 err then
    mkResponse 400 (json_msg "Pharmacy with this license number already exists.")
  else if is_name "ValidationError" err then
    mkResponse 400 (json_errors "Validation Error" (err_errors err))
  else mkResponse 500 (send_text "Server Error").

(** [reqBody] is [req.body]; [oid] is the [_id] generated for the new
    document and [now] the time of the save.  The eight fields are
    copied; the object given to the constructor has no [isActive]. *)
Definition post (oid : ObjectId) (now : Date) (reqBody : Fields)
    (coll : Collection) : Response * Collection :=
  let newPharmacy :=
    new oid {| f_name := f_name reqBody;
               f_address := f_address reqBody;
               f_phoneNumber := f_phoneNumber reqBody;
               f_licenseNumber := f_licenseNumber reqBody;
               f_email := f_email reqBody;
               f_website := f_website reqBody;
               f_servicesOffered := f_servicesOffered reqBody;
               f_openingHours := f_openingHours reqBody;
               f_isActive := None |} in
  match save_new now newPharmacy coll with
  | inr (pharmacy, coll') => (mkResponse 201 (json_doc pharmacy), coll')
  | inl err => (post_catch err, coll)
  end.

(** ** GET / *)

Record Query : Type := mkQuery {
  q_city : option string;
  q_service : option string
}.

(** [if (req.query.x)]: a parameter that is given and not empty. *)
Definition given (v : option string) : option string :=
  match v with
  | Some s => if Js.isEmpty s then None else Some s
  | None => None
  end.

(** The regular expression of one optional parameter.  The outer
    [None]: an error is thrown, and the handler is in its [catch]. *)
Definition regexp_of (other : RegExp.Engine) (v : option string)
  : option (option (string -> bool)) :=
  match given v with
  | None => Some None
  | Some s =>
      match RegExp.compile other s with
      | RegExp.Matches m => Some (Some m)
      | RegExp.Throws => None
      end
  end.

Definition filter_of (other : RegExp.Engine) (q : Query) : option Filter :=
  match regexp_of other (q_city q), regexp_of other (q_service q) with
  | Some c, Some s => Some (mkFilter c s)
  | _, _ => None
  end.

(** [other] is the part of the regular expressions that is not
    modelled.  Every error ends in the one [catch]. *)
Definition get_list (other : RegExp.Engine) (q : Query) (coll : Collection)
  : Response :=
  match filter_of other q with
  | Some flt => res_json (json_docs (find_sorted flt coll))
  | None => mkResponse 500 (send_text "Server Error")
  end.

(** ** GET /:id *)

Definition get_catch (err : MongooseError) : Response :=
  if is_kind "ObjectId" err then
    mkResponse 404 (json_msg "Pharmacy not found (Invalid ID format)")
  else mkResponse 500 (send_text "Server Error").

Definition get_by_id (id : string) (coll : Collection) : Response :=
  match findById id coll with
  | inr None => mkResponse 404 (json_msg "Pharmacy not found")
  | inr (Some pharmacy) =>
      if negb (isActive pharmacy) then mkResponse 404 (json_msg "Pharmacy not found")
      else res_json (json_doc pharmacy)
  | inl err => get_catch err
  end.

(** ** PUT /:id *)

Definition put_catch (err : MongooseError) : Response :=
  if is_code 11000 err then
    mkResponse 400
      (json_msg "Update failed: Duplicate key violation (e.g., license number).")
  else if is_name "ValidationError" err then
    mkResponse 400 (json_errors "Validation Error" (err_errors err))
  else if is_kind "ObjectId" err then
    mkResponse 404 (json_msg "Pharmacy not found (Invalid ID format)")
  else mkResponse 500 (send_text "Server Error").

Definition put (now : Date) (id : string) (reqBody : Fields) (coll : Collection)
  : Response * Collection :=
  match findById id coll with
  | inl err => (put_catch err, coll)
  | inr None => (mkResponse 404 (json_msg "Pharmacy not found"), coll)
  | inr (Some _) =>
      let updateData := reqBody in
      match findByIdAndUpdate now id updateData coll with
      | inl err => (put_catch err, coll)
      | inr (Some updatedPharmacy, coll') => (res_json (json_doc updatedPharmacy), coll')
      | inr (None, coll') => (res_json json_null, coll')
      end
  end.

(** ** DELETE /:id *)

Definition delete_catch (err : MongooseError) : Response :=
  if is_kind "ObjectId" err then
    mkResponse 404 (json_msg "Pharmacy not found (Invalid ID format)")
  else mkResponse 500 (send_text "Server Error").

Definition delete (now : Date) (id : string) (coll : Collection)
  : Response * Collection :=
  match findById id coll with
  | inl err => (delete_catch err, coll)
  | inr None => (mkResponse 404 (json_msg "Pharmacy not found"), coll)
  | inr (Some pharmacy) =>
      match save_loaded now pharmacy (set_isActive false pharmacy) coll with
      | inl err => (delete_catch err, coll)
      | inr coll' => (res_json (json_msg "Pharmacy marked as inactive"), coll')
      end
  end.

End Routes.

(* ================================================================== *)
(** * The vocabulary of the specification *)
(* ================================================================== *)

Module Spec.
Import Schema Model Routes.

(** ** The invariant of the collection

    What every collection that the handlers build satisfies: the two
    unique indexes hold, and every document has passed validation with
    its license number as the setter left it. *)

Definition doc_ok (p : Pharmacy) : Prop :=
  validate p = [] /\ set_trim (licenseNumber p) = licenseNumber p.

Record wellFormed (coll : Collection) : Prop := mkWellFormed {
  wf_ids : NoDup (map _id coll);
  wf_licenses : NoDup (map licenseNumber coll);
  wf_docs : Forall doc_ok coll
}.

(** [p] is the record of the collection with the id [id]. *)
Definition stored (id : string) (coll : Collection) (p : Pharmacy) : Prop :=
  exists oid, castObjectId id = inr oid /\ In p coll /\ _id p = oid.

(** [id] is not in the format of the ids of the store. *)
Definition malformed (id : string) : Prop :=
  exists e, castObjectId id = inl e.

Definition notFound : Response :=
  mkResponse 404 (json_msg "Pharmacy not found").

Definition notFoundInvalidId : Response :=
  mkResponse 404 (json_msg "Pharmacy not found (Invalid ID format)").

(** ** Formats, in the words of the specification *)

Definition digitValue (c : ascii) : N := (Js.code c - 48)%N.

(** HH:MM on the 24-hour clock: two digits from 00 to 23, a colon, two
    digits from 00 to 59. *)
Definition isHHMM (s : string) : bool :=
  match Js.chars s with
  | [h1; h2; c; m1; m2] =>
      Js.isDigit h1 && Js.isDigit h2 && Ascii.eqb c ":"
      && Js.isDigit m1 && Js.isDigit m2
      && (10 * digitValue h1 + digitValue h2 <=? 23)%N
      && (10 * digitValue m1 + digitValue m2 <=? 59)%N
  | _ => false
  end.

(** A run of text: characters that are not white space, at least one. *)
Definition isText (l : list ascii) : Prop :=
  l <> [] /\ Forall (fun c => Js.isWhiteSpace c = false) l.

(** text@text.text somewhere in the value. *)
Definition hasEmailShape (s : string) : Prop :=
  exists before a b c after,
    Js.chars s = before ++ a ++ "@"%char :: b ++ "."%char :: c ++ after
    /\ isText a /\ isText b /\ isText c.

Definition inRange (n : Number) : Prop := (0 <= n)%Q /\ (n <= 6)%Q.

Definition isInteger (n : Number) : Prop := exists z : Z, (n == inject_Z z)%Q.

(** An entry of [openingHours] as the schema accepts it. *)
Definition hoursAccepted (h : OpeningHours) : Prop :=
  (exists n, dayOfWeek h = Some n /\ inRange n)
  /\ (exists o, openTime h = Some o /\ isHHMM o = true)
  /\ (exists c, closeTime h = Some c /\ isHHMM c = true).

(** A value of [email] as the schema accepts it: trimmed and in
    lower case, it is empty or holds text@text.text. *)
Definition emailAccepted (e : string) : Prop :=
  Js.toLowerCase (Js.trim e) = "" \/ hasEmailShape (Js.toLowerCase (Js.trim e)).

(** ** Requests *)

Definition absent {A : Type} (v : option A) : bool :=
  match v with None => true | Some _ => false end.

(** The required paths that a body does not hold. *)
Definition missingOfAddress (a : Address) : list string :=
  (if absent (street a) then ["address.street"] else []) ++
  (if absent (city a) then ["address.city"] else []) ++
  (if absent (state a) then ["address.state"] else []) ++
  (if absent (zipCode a) then ["address.zipCode"] else []).

Definition missing (f : Fields) : list string :=
  (if absent (f_name f) then ["name"] else []) ++
  match f_address f with
  | None => ["address"]
  | Some a => missingOfAddress a
  end ++
  (if absent (f_phoneNumber f) then ["phoneNumber"] else []) ++
  (if absent (f_licenseNumber f) then ["licenseNumber"] else []).

Definition with_isActive (v : option bool) (f : Fields) : Fields :=
  {| f_name := f_name f; f_address := f_address f;
     f_phoneNumber := f_phoneNumber f; f_email := f_email f;
     f_website := f_website f; f_licenseNumber := f_licenseNumber f;
     f_servicesOffered := f_servicesOffered f;
     f_openingHours := f_openingHours f; f_isActive := v |}.

Definition with_email (v : option string) (f : Fields) : Fields :=
  {| f_name := f_name f; f_address := f_address f;
     f_phoneNumber := f_phoneNumber f; f_email := v;
     f_website := f_website f; f_licenseNumber := f_licenseNumber f;
     f_servicesOffered := f_servicesOffered f;
     f_openingHours := f_openingHours f; f_isActive := f_isActive f |}.

Definition with_openingHours (v : option (list OpeningHours)) (f : Fields) : Fields :=
  {| f_name := f_name f; f_address := f_address f;
     f_phoneNumber := f_phoneNumber f; f_email := f_email f;
     f_website := f_website f; f_licenseNumber := f_licenseNumber f;
     f_servicesOffered := f_servicesOffered f;
     f_openingHours := v; f_isActive := f_isActive f |}.

(** The body with no field. *)
Definition noFields : Fields :=
  mkFields None None None None None None None None None.

(** The responses with a fixed text. *)
Definition duplicateLicense : Response :=
  mkResponse 400 (json_msg "Pharmacy with this license number already exists.").

Definition duplicateOnUpdate : Response :=
  mkResponse 400
    (json_msg "Update failed: Duplicate key violation (e.g., license number).").

Definition validationFailed (errs : ValidationErrors) : Response :=
  mkResponse 400 (json_errors "Validation Error" errs).

Definition markedInactive : Response :=
  mkResponse 200 (json_msg "Pharmacy marked as inactive").

Definition serverError : Response :=
  mkResponse 500 (send_text "Server Error").

(** Every top-level field that the payload [f] does not hold has in
    [p] the value it has in [old]; [updatedAt] is not among them. *)
Definition kept (f : Fields) (old p : Pharmacy) : Prop :=
  _id p = _id old
  /\ createdAt p = createdAt old
  /\ (f_name f = None -> name p = name old)
  /\ (f_address f = None -> address p = address old)
  /\ (f_phoneNumber f = None -> phoneNumber p = phoneNumber old)
  /\ (f_email f = None -> email p = email old)
  /\ (f_website f = None -> website p = website old)
  /\ (f_licenseNumber f = None -> licenseNumber p = licenseNumber old)
  /\ (f_servicesOffered f = None -> servicesOffered p = servicesOffered old)
  /\ (f_openingHours f = None -> openingHours p = openingHours old)
  /\ (f_isActive f = None -> isActive p = isActive old).

(** Every field that the payload holds has in [p] the value of the
    payload, as the setters leave it. *)
Definition written (f : Fields) (p : Pharmacy) : Prop :=
  (forall v, f_name f = Some v -> name p = Some (Js.trim v))
  /\ (forall v, f_address f = Some v -> address p = Some (castAddress v))
  /\ (forall v, f_phoneNumber f = Some v -> phoneNumber p = Some (Js.trim v))
  /\ (forall v, f_email f = Some v -> email p = Some (Js.toLowerCase (Js.trim v)))
  /\ (forall v, f_website f = Some v -> website p = Some (Js.trim v))
  /\ (forall v, f_licenseNumber f = Some v -> licenseNumber p = Some (Js.trim v))
  /\ (forall v, f_servicesOffered f = Some v -> servicesOffered p = map Js.trim v)
  /\ (forall v, f_openingHours f = Some v -> openingHours p = v)
  /\ (forall v, f_isActive f = Some v -> isActive p = v).

(** [q] is [p] with every field but [isActive] and [updatedAt] as it
    was. *)
Definition sameButFlag (p q : Pharmacy) : Prop :=
  _id q = _id p /\ name q = name p /\ address q = address p
  /\ phoneNumber q = phoneNumber p /\ email q = email p
  /\ website q = website p /\ licenseNumber q = licenseNumber p
  /\ servicesOffered q = servicesOffered p
  /\ openingHours q = openingHours p /\ createdAt q = createdAt p.

(** The license of [p] is that of a stored record other than [old]. *)
Definition licenseOfAnother (coll : Collection) (old p : Pharmacy) : Prop :=
  exists d, In d coll /\ _id d <> _id old
            /\ licenseNumber d = licenseNumber p.

(** The order of the list endpoint. *)
Definition name_le (p q : Pharmacy) : Prop := name_leb p q = true.


(** The record [d] is in the answer [r] of the list endpoint. *)
Definition returned (r : Response) (d : Pharmacy) : Prop :=
  match payload r with
  | json_docs l => In d l
  | _ => False
  end.

(** The value of a parameter cannot be compiled. *)
Definition refused (other : RegExp.Engine) (v : option string) : Prop :=
  exists s, given v = Some s /\ RegExp.compile other s = RegExp.Throws.

(** The regular expression of the value [s] matches in [subject]. *)
Definition found (other : RegExp.Engine) (s subject : string) : bool :=
  match RegExp.compile other s with
  | RegExp.Matches m => m subject
  | RegExp.Throws => false
  end.

(** What the list endpoint keeps: active documents, the city and the
    service matched by the regular expressions of the values. *)
Definition listedBy (other : RegExp.Engine) (q : Query) (p : Pharmacy) : bool :=
  isActive p
  && match given (q_city q) with
     | None => true
     | Some s =>
         match cityOf p with
         | Some c => found other s c
         | None => false
         end
     end
  && match given (q_service q) with
     | None => true
     | Some s => existsb (found other s) (servicesOffered p)
     end.


End Spec.

(* ================================================================== *)
(** * Requests and collections used as examples *)
(* ================================================================== *)

Module Examples.
Import Schema Model Routes Spec.

Definition boston : Address :=
  mkAddress (Some "1 Main St") (Some "boston") (Some "MA") (Some "02101")
    None None None.

Definition chicago : Address :=
  mkAddress (Some "2 Lake St") (Some "Chicago") (Some "IL") (Some "60601")
    None None None.

(** A complete body. *)
Definition acme : Fields :=
  mkFields (Some "Acme") (Some boston) (Some "555-0100") None None
    (Some "LIC-1") None None None.

Definition zenith : Fields :=
  mkFields (Some "Zenith") (Some chicago) (Some "555-0200") None None
    (Some "LIC-2") None None None.

(** The documents that the two bodies create at time 1000. *)
Definition acme_doc : Pharmacy := set_timestamps 1000 (new 1%N acme).
Definition zenith_doc : Pharmacy := set_timestamps 1000 (new 2%N zenith).

Definition id1 : string := "000000000000000000000001".
Definition id2 : string := "000000000000000000000002".

Definition coll1 : Collection := [acme_doc].
Definition coll2 : Collection := [zenith_doc; acme_doc].

(** [acme_doc] after a soft delete at time 1500. *)
Definition acme_inactive : Pharmacy :=
  set_updatedAt 1500 (set_isActive false acme_doc).

(** An engine that refuses every source outside the modelled grammar.
    The examples have no such source: any other engine gives the same
    answers. *)
Definition refuseOthers : RegExp.Engine := fun _ => RegExp.Throws.

(** A body that holds a license number and nothing else. *)
Definition onlyLicense : Fields :=
  mkFields None None None None None (Some "LIC-1") None None None.

Definition onlyWebsite : Fields :=
  mkFields None None None None (Some "https://acme.example") None None None None.

Definition withHours (h : OpeningHours) (f : Fields) : Fields :=
  with_openingHours (Some [h]) f.

Definition halfDay : OpeningHours :=
  mkOpeningHours (Some (5 # 2)%Q) (Some "09:00") (Some "18:00").

Definition monday (o c : string) : OpeningHours :=
  mkOpeningHours (Some 1%Q) (Some o) (Some c).

End Examples.

(* ================================================================== *)
(** * Sequences of requests, and more vocabulary *)
(* ================================================================== *)

Module Sessions.
Import Schema Model Routes Spec.

(** The requests that write.  The two GET handlers return a response and
    no collection: they read. *)
Inductive Request : Type :=
| POST (oid : ObjectId) (now : Date) (body : Fields)
| PUT (now : Date) (id : string) (body : Fields)
| DELETE (now : Date) (id : string).

Definition handle (r : Request) (coll : Collection) : Response * Collection :=
  match r with
  | POST oid now body => post oid now body coll
  | PUT now id body => put now id body coll
  | DELETE now id => delete now id coll
  end.

(** The time at which a request is served. *)
Definition time_of (r : Request) : Date :=
  match r with
  | POST _ now _ => now
  | PUT now _ _ => now
  | DELETE now _ => now
  end.

(** The collection after the requests, served one after the other. *)
Definition after (rs : list Request) (coll : Collection) : Collection :=
  fold_left (fun c r => snd (handle r c)) rs coll.

(** The clock does not go back: each request is served no earlier than
    the one before, the first no earlier than [t]. *)
Fixpoint nondecreasing (t : Date) (rs : list Request) : Prop :=
  match rs with
  | [] => True
  | r :: rs' => (t <= time_of r)%Z /\ nondecreasing (time_of r) rs'
  end.

(** The two timestamps are set, [createdAt] no later than [updatedAt],
    and [updatedAt] no later than [t]. *)
Definition timestamped (t : Date) (p : Pharmacy) : Prop :=
  exists c u, createdAt p = Some c /\ updatedAt p = Some u
              /\ (c <= u)%Z /\ (u <= t)%Z.

(** The identity of a record: what no request changes. *)
Definition identity (p : Pharmacy) : ObjectId * option Date :=
  (_id p, createdAt p).

(** ** Blank strings *)

(** A string that is given and has nothing but white space. *)
Definition isBlank (v : option string) : bool :=
  match v with
  | Some s => Js.isEmpty (Js.trim s)
  | None => false
  end.

Definition blankOfAddress (a : Address) : list string :=
  (if isBlank (street a) then ["address.street"] else []) ++
  (if isBlank (city a) then ["address.city"] else []) ++
  (if isBlank (state a) then ["address.state"] else []) ++
  (if isBlank (zipCode a) then ["address.zipCode"] else []) ++
  (if isBlank (country a) then ["address.country"] else []).

(** The required paths that a body holds with a blank value. *)
Definition blank (f : Fields) : list string :=
  (if isBlank (f_name f) then ["name"] else []) ++
  match f_address f with
  | None => []
  | Some a => blankOfAddress a
  end ++
  (if isBlank (f_phoneNumber f) then ["phoneNumber"] else []) ++
  (if isBlank (f_licenseNumber f) then ["licenseNumber"] else []).

(** ** Strings in normal form *)

Definition trimmed (v : option string) : Prop := set_trim v = v.

Definition trimmedAddress (a : Address) : Prop :=
  trimmed (street a) /\ trimmed (city a) /\ trimmed (state a)
  /\ trimmed (zipCode a) /\ trimmed (country a).

(** Every string of the record is as the setters of the schema leave
    it: without white space at either end, the email in lower case. *)
Definition normalised (p : Pharmacy) : Prop :=
  trimmed (name p)
  /\ match address p with Some a => trimmedAddress a | None => True end
  /\ trimmed (phoneNumber p)
  /\ set_email (email p) = email p
  /\ trimmed (website p)
  /\ trimmed (licenseNumber p)
  /\ Forall (fun s => Js.trim s = s) (servicesOffered p).

(** ** The patterns of the list endpoint *)

(** A character of the value of a filter against a character of the
    subject: [.] stands for any character but the line feed, any other
    character for itself, letter case ignored. *)
Definition patternChar (c x : ascii) : bool :=
  if Ascii.eqb c "."%char then negb (Js.isLineFeed x) else Js.eq_ignoreCase c x.

(** A value whose only syntax character is [.]. *)
Definition dotsAndLiterals (source : string) : bool :=
  forallb (fun c => Ascii.eqb c "."%char || negb (RegExp.isSyntaxCharacter c))
    (Js.chars source).

(** The value occurs in the subject, with [.] as a wild card. *)
Definition occursIn (source subject : string) : bool :=
  Js.infix_by patternChar (Js.chars source) (Js.chars subject).

(** What the list endpoint keeps, with [.] as a wild card. *)
Definition listedWild (q : Query) (p : Pharmacy) : bool :=
  isActive p
  && match given (q_city q) with
     | None => true
     | Some s =>
         match cityOf p with
         | Some c => occursIn s c
         | None => false
         end
     end
  && match given (q_service q) with
     | None => true
     | Some s => existsb (occursIn s) (servicesOffered p)
     end.

Definition wild (v : option string) : Prop :=
  match v with
  | Some s => dotsAndLiterals s = true
  | None => True
  end.

(** ** More examples *)

Definition with_address (v : option Address) (f : Fields) : Fields :=
  {| f_name := f_name f; f_address := v;
     f_phoneNumber := f_phoneNumber f; f_email := f_email f;
     f_website := f_website f; f_licenseNumber := f_licenseNumber f;
     f_servicesOffered := f_servicesOffered f;
     f_openingHours := f_openingHours f; f_isActive := f_isActive f |}.

Definition with_name (v : option string) (f : Fields) : Fields :=
  {| f_name := v; f_address := f_address f;
     f_phoneNumber := f_phoneNumber f; f_email := f_email f;
     f_website := f_website f; f_licenseNumber := f_licenseNumber f;
     f_servicesOffered := f_servicesOffered f;
     f_openingHours := f_openingHours f; f_isActive := f_isActive f |}.

(** An address with the city alone. *)
Definition cityOnly : Address :=
  mkAddress None (Some "Salem") None None None None None.

(** A session: two creates, an update of the first record, a soft
    delete of the second. *)
Definition session : list Request :=
  [ POST 1%N 1000 Examples.acme;
    POST 2%N 1100 Examples.zenith;
    PUT 1200 Examples.id1 Examples.onlyWebsite;
    DELETE 1300 Examples.id2 ].

End Sessions.

(* ================================================================== *)
(** * Regular expressions: [test] decides the language *)
(* ================================================================== *)

Module RegExpFacts.
Import RegExp.

Lemma lang_eps (l : list ascii) : lang Eps l <-> l = [].
Proof. split; [intros H; now inversion H | intros ->; constructor]. Qed.

Lemma lang_class (f : ascii -> bool) (l : list ascii) :
  lang (Class f) l <-> exists c, l = [c] /\ f c = true.
Proof.
  split.
  - intros H; inversion H; subst. now exists c.
  - intros (c & -> & H). now constructor.
Qed.

Lemma lang_seq (r1 r2 : regex) (l : list ascii) :
  lang (Seq r1 r2) l <-> exists l1 l2, l = l1 ++ l2 /\ lang r1 l1 /\ lang r2 l2.
Proof.
  split.
  - intros H; inversion H; subst. eauto.
  - intros (l1 & l2 & -> & H1 & H2). now constructor.
Qed.

Lemma lang_alt (r1 r2 : regex) (l : list ascii) :
  lang (Alt r1 r2) l <-> lang r1 l \/ lang r2 l.
Proof.
  split.
  - intros H; inversion H; subst; auto.
  - intros [H | H]; [now apply L_alt_l | now apply L_alt_r].
Qed.

Lemma nullable_lang (r : regex) : nullable r = true <-> lang r [].
Proof.
  induction r; simpl.
  - split; [discriminate | intros H; inversion H].
  - split; [constructor | reflexivity].
  - rewrite lang_class. split; [discriminate | intros (c & Heq & _); discriminate].
  - rewrite andb_true_iff, IHr1, IHr2, lang_seq. split.
    + intros [H1 H2]. now exists [], [].
    + intros (l1 & l2 & Heq & H1 & H2). symmetry in Heq.
      apply app_eq_nil in Heq as [-> ->]. now split.
  - now rewrite orb_true_iff, IHr1, IHr2, lang_alt.
  - split; [constructor | reflexivity].
Qed.

(** A non-empty word of a star starts with a non-empty word of the
    body. *)
Lemma lang_star_cons (r : regex) (c : ascii) (l : list ascii) :
  lang (Star r) (c :: l) ->
  exists l1 l2, l = l1 ++ l2 /\ lang r (c :: l1) /\ lang (Star r) l2.
Proof.
  intros H. remember (Star r) as s eqn:Hs. remember (c :: l) as w eqn:Hw.
  revert c l Hw.
  induction H as [| | | | | |r' l1 l2 H1 _ H2 IH2]; intros x w Hw; try discriminate.
  injection Hs as ->.
  destruct l1 as [|a l1]; simpl in Hw.
  - now apply IH2.
  - injection Hw as -> <-. now exists l1, l2.
Qed.

Lemma deriv_lang (c : ascii) (r : regex) (l : list ascii) :
  lang (deriv c r) l <-> lang r (c :: l).
Proof.
  revert l. induction r; intros l; simpl.
  - split; intros H; inversion H.
  - split; intros H; inversion H.
  - rewrite lang_class. destruct (f c) eqn:Hf.
    + rewrite lang_eps. split.
      * intros ->. now exists c.
      * intros (c' & Heq & _). now injection Heq.
    + split; [intros H; inversion H |].
      intros (c' & Heq & Hc). injection Heq as -> _. congruence.
  - assert (Hseq : lang (Seq r1 r2) (c :: l) <->
                   lang (Seq (deriv c r1) r2) l \/ (lang r1 [] /\ lang r2 (c :: l))).
    { rewrite !lang_seq. split.
      - intros (l1 & l2 & Heq & H1 & H2). destruct l1 as [|a l1]; simpl in Heq.
        + right. subst l2. now split.
        + injection Heq as <- ->. left. exists l1, l2.
          repeat split; [now apply IHr1 | easy].
      - intros [(l1 & l2 & -> & H1 & H2) | [H1 H2]].
        + exists (c :: l1), l2. repeat split; [now apply IHr1 | easy].
        + now exists [], (c :: l). }
    rewrite Hseq. destruct (nullable r1) eqn:Hn.
    + rewrite lang_alt, IHr2. split.
      * intros [H | H]; [now left | right; split; [now apply nullable_lang | easy]].
      * intros [H | [_ H]]; [now left | now right].
    + split; [now left |]. intros [H | [H _]]; [easy |].
      apply nullable_lang in H. congruence.
  - now rewrite !lang_alt, IHr1, IHr2.
  - rewrite lang_seq. split.
    + intros (l1 & l2 & -> & H1 & H2). apply IHr in H1.
      change (c :: l1 ++ l2) with ((c :: l1) ++ l2). now constructor.
    + intros H. apply lang_star_cons in H as (l1 & l2 & -> & H1 & H2).
      exists l1, l2. repeat split; [now apply IHr | easy].
Qed.

Lemma matches_lang (r : regex) (l : list ascii) :
  matches r l = true <-> lang r l.
Proof.
  revert r. induction l as [|c l IH]; intros r; simpl.
  - apply nullable_lang.
  - rewrite IH. apply deriv_lang.
Qed.

Lemma lang_any (l : list ascii) : lang (Star AnyChar) l.
Proof.
  induction l as [|c l IH]; [constructor |].
  change (c :: l) with ([c] ++ l). constructor; [now constructor | easy].
Qed.

(** One or more characters of a class. *)
Lemma lang_plus_class (f : ascii -> bool) (l : list ascii) :
  lang (Plus (Class f)) l <-> l <> [] /\ Forall (fun c => f c = true) l.
Proof.
  assert (Hstar : forall w, lang (Star (Class f)) w <-> Forall (fun c => f c = true) w).
  { intros w. split.
    - induction w as [|a w IH]; intros H; [constructor |].
      apply lang_star_cons in H as (l1 & l2 & -> & H1 & H2).
      apply lang_class in H1 as (c & Heq & Hc).
      injection Heq as -> ->. constructor; [easy | now apply IH].
    - induction 1 as [|a w Ha _ IH]; [constructor |].
      change (a :: w) with ([a] ++ w). constructor; [now constructor | easy]. }
  unfold Plus. rewrite lang_seq. split.
  - intros (l1 & l2 & -> & H1 & H2). apply lang_class in H1 as (c & -> & Hc).
    split; [discriminate |]. constructor; [easy | now apply Hstar].
  - intros [Hne H]. destruct l as [|a l]; [congruence |].
    inversion H; subst. exists [a], l.
    repeat split; [now constructor | now apply Hstar].
Qed.

(** What [test] decides. *)
Lemma test_spec (re : JsRegExp) (s : string) :
  test re s = true <->
  exists before mid after,
    Js.chars s = before ++ mid ++ after
    /\ lang (pattern re) mid
    /\ (fromStart re = true -> before = [])
    /\ (toEnd re = true -> after = []).
Proof.
  unfold test. rewrite matches_lang, lang_seq. split.
  - intros (l1 & l23 & Heq & H1 & H23).
    apply lang_seq in H23 as (l2 & l3 & -> & H2 & H3).
    exists l1, l2, l3. repeat split; try easy.
    + intros Hs. rewrite Hs in H1. now apply lang_eps.
    + intros He. rewrite He in H3. now apply lang_eps.
  - intros (l1 & l2 & l3 & Heq & H2 & Hs & He).
    exists l1, (l2 ++ l3). repeat split; [easy | |].
    + destruct (fromStart re); [apply lang_eps; auto | apply lang_any].
    + apply lang_seq. exists l2, l3. repeat split; [easy |].
      destruct (toEnd re); [apply lang_eps; auto | apply lang_any].
Qed.

End RegExpFacts.

(* ================================================================== *)
(** * Strings *)
(* ================================================================== *)

Module JsFacts.
Import Js.

(** A property of one character is checked on the 256. *)
Lemma forall_char (P : ascii -> bool) :
  forallb P allChars = true -> forall c, P c = true.
Proof.
  intros H c. rewrite forallb_forall in H. apply H.
  unfold allChars. rewrite <- (ascii_nat_embedding c).
  apply in_map, in_seq. pose proof (nat_ascii_bounded c). lia.
Qed.

Lemma forall_char2 (P : ascii -> ascii -> bool) :
  forallb (fun a => forallb (P a) allChars) allChars = true ->
  forall a b, P a b = true.
Proof.
  intros H a. apply forall_char.
  revert a. apply forall_char with (P := fun a => forallb (P a) allChars). exact H.
Qed.

Lemma isEmpty_true (s : string) : isEmpty s = true <-> s = "".
Proof. destruct s; simpl; split; congruence. Qed.

Lemma trimEnd_cons_keep (c : ascii) (s : string) :
  isWhiteSpace c = false -> trimEnd (String c s) = String c (trimEnd s).
Proof. intros H. simpl. rewrite H. now destruct (trimEnd s). Qed.

Lemma trimEnd_idem (s : string) : trimEnd (trimEnd s) = trimEnd s.
Proof.
  induction s as [|c s IH]; [reflexivity |].
  simpl. destruct (trimEnd s) as [|d t] eqn:Ht.
  - destruct (isWhiteSpace c) eqn:Hc; [reflexivity |].
    simpl. now rewrite Hc.
  - change (trimEnd (String c (String d t)))
      with (match trimEnd (String d t) with
            | EmptyString =>
                if isWhiteSpace c then EmptyString else String c EmptyString
            | t' => String c t'
            end).
    now rewrite IH.
Qed.

(** What [trimStart] returns is empty or starts with a character that
    is not white space. *)
Lemma trimStart_head (s : string) :
  trimStart s = "" \/
  exists c t, trimStart s = String c t /\ isWhiteSpace c = false.
Proof.
  induction s as [|c s IH]; [now left |].
  simpl. destruct (isWhiteSpace c) eqn:Hc; [exact IH |].
  right. now exists c, s.
Qed.

Lemma trim_idem (s : string) : trim (trim s) = trim s.
Proof.
  unfold trim. destruct (trimStart_head s) as [-> | (c & t & -> & Hc)].
  - reflexivity.
  - rewrite (trimEnd_cons_keep c t Hc). simpl trimStart. rewrite Hc.
    rewrite (trimEnd_cons_keep c (trimEnd t) Hc). now rewrite trimEnd_idem.
Qed.

Lemma prefix_by_spec (eqc : ascii -> ascii -> bool) (p l : list ascii) :
  prefix_by eqc p l = true <->
  exists mid rest, l = mid ++ rest /\ Forall2 (fun a b => eqc a b = true) p mid.
Proof.
  revert l. induction p as [|a p IH]; intros l; simpl.
  - split; [intros _; exists [], l; now split | reflexivity].
  - destruct l as [|b l].
    + split; [discriminate |].
      intros (mid & rest & Heq & H). inversion H; subst. discriminate.
    + rewrite andb_true_iff, IH. split.
      * intros (Hab & mid & rest & -> & H). exists (b :: mid), rest.
        split; [reflexivity | now constructor].
      * intros (mid & rest & Heq & H). inversion H; subst.
        injection Heq as -> ->. split; [easy | eauto].
Qed.

Lemma infix_by_spec (eqc : ascii -> ascii -> bool) (p l : list ascii) :
  infix_by eqc p l = true <->
  exists before mid after,
    l = before ++ mid ++ after /\ Forall2 (fun a b => eqc a b = true) p mid.
Proof.
  induction l as [|b l IH].
  - simpl. rewrite orb_false_r, prefix_by_spec. split.
    + intros (mid & rest & Heq & H). now exists [], mid, rest.
    + intros (before & mid & after & Heq & H).
      symmetry in Heq. apply app_eq_nil in Heq as [-> Heq]. eauto.
  - change (infix_by eqc p (b :: l))
      with (prefix_by eqc p (b :: l) || infix_by eqc p l).
    rewrite orb_true_iff, prefix_by_spec, IH. split.
    + intros [(mid & rest & Heq & H) | (before & mid & after & -> & H)].
      * exists [], mid, rest. split; [exact Heq | exact H].
      * exists (b :: before), mid, after. split; [reflexivity | exact H].
    + intros (before & mid & after & Heq & H). destruct before as [|x before].
      * left. exists mid, after. split; [exact Heq | exact H].
      * injection Heq as -> ->. right. exists before, mid, after. now split.
Qed.

End JsFacts.

(* ================================================================== *)
(** * The formats of the schema and the patterns of a query *)
(* ================================================================== *)

Module FormatFacts.
Import Js RegExp RegExpFacts JsFacts Schema Spec.

Lemma bool_eq_iff (a b : bool) : (a = true <-> b = true) -> a = b.
Proof.
  destruct a, b; intros [H1 H2]; try reflexivity.
  - symmetry. now apply H1.
  - now apply H2.
Qed.

(** [[01]\d|2[0-3]] is 00 to 23. *)
Lemma hours_00_23 (h1 h2 : ascii) :
  (existsb (Ascii.eqb h1) (chars "01") && isDigit h2
   || Ascii.eqb "2" h1 && existsb (Ascii.eqb h2) (chars "0123"))
  = (isDigit h1 && isDigit h2
     && (10 * digitValue h1 + digitValue h2 <=? 23)%N).
Proof.
  apply Bool.eqb_prop. revert h1 h2. apply forall_char2. vm_compute. reflexivity.
Qed.

(** [[0-5]\d] is 00 to 59. *)
Lemma minutes_00_59 (m1 m2 : ascii) :
  (existsb (Ascii.eqb m1) (chars "012345") && isDigit m2)
  = (isDigit m1 && isDigit m2
     && (10 * digitValue m1 + digitValue m2 <=? 59)%N).
Proof.
  apply Bool.eqb_prop. revert m1 m2. apply forall_char2. vm_compute. reflexivity.
Qed.

Lemma time_lang (l : list ascii) :
  lang (pattern timeRegExp) l <->
  exists h1 h2 m1 m2,
    l = [h1; h2; ":"%char; m1; m2]
    /\ (existsb (Ascii.eqb h1) (chars "01") && isDigit h2
        || Ascii.eqb "2" h1 && existsb (Ascii.eqb h2) (chars "0123")) = true
    /\ (existsb (Ascii.eqb m1) (chars "012345") && isDigit m2) = true.
Proof.
  unfold timeRegExp, pattern, OneOf, Chr, Digit.
  split.
  - intros H.
    apply lang_seq in H as (lh & lr & -> & Hh & Hr).
    apply lang_seq in Hr as (lc & lm & -> & Hc & Hm).
    apply lang_class in Hc as (c & -> & Hc). apply Ascii.eqb_eq in Hc. subst c.
    apply lang_seq in Hm as (lm1 & lm2 & -> & Hm1 & Hm2).
    apply lang_class in Hm1 as (m1 & -> & Hm1).
    apply lang_class in Hm2 as (m2 & -> & Hm2).
    apply lang_alt in Hh as [Hh | Hh];
      apply lang_seq in Hh as (lh1 & lh2 & -> & Hh1 & Hh2);
      apply lang_class in Hh1 as (h1 & -> & Hh1);
      apply lang_class in Hh2 as (h2 & -> & Hh2);
      exists h1, h2, m1, m2; simpl app;
      (split; [reflexivity |]); rewrite Hm1, Hm2, Hh1, Hh2; simpl;
      rewrite ?orb_true_r; auto.
  - intros (h1 & h2 & m1 & m2 & -> & Hh & Hm).
    apply andb_true_iff in Hm as [Hm1 Hm2].
    change [h1; h2; ":"%char; m1; m2]
      with ([h1; h2] ++ [":"%char] ++ [m1] ++ [m2]).
    constructor; [| constructor; [| constructor]]; try (now constructor).
    apply orb_true_iff in Hh as [Hh | Hh]; apply andb_true_iff in Hh as [Hh1 Hh2].
    + apply L_alt_l. change [h1; h2] with ([h1] ++ [h2]).
      constructor; now constructor.
    + apply L_alt_r. change [h1; h2] with ([h1] ++ [h2]).
      constructor; now constructor.
Qed.

(** The regular expression of [openTime] and [closeTime] accepts the
    HH:MM values of the 24-hour clock and no other. *)
Lemma time_test (s : string) : test timeRegExp s = isHHMM s.
Proof.
  apply bool_eq_iff. rewrite test_spec. unfold isHHMM. split.
  - intros (before & mid & after & Heq & Hl & Hs & He).
    rewrite (Hs eq_refl), (He eq_refl), app_nil_r in Heq. simpl in Heq.
    apply time_lang in Hl as (h1 & h2 & m1 & m2 & -> & Hh & Hm).
    rewrite Heq. rewrite hours_00_23 in Hh. rewrite minutes_00_59 in Hm.
    rewrite !andb_true_iff in *. simpl. intuition.
  - destruct (chars s) as [|h1 [|h2 [|c [|m1 [|m2 [|x l]]]]]] eqn:Hc;
      try discriminate.
    intros H. rewrite !andb_true_iff in H.
    destruct H as [[[[[[D1 D2] C] D3] D4] Hh] Hm].
    apply Ascii.eqb_eq in C. subst c.
    exists [], [h1; h2; ":"%char; m1; m2], []. repeat split; try easy.
    apply time_lang. exists h1, h2, m1, m2. split; [reflexivity |].
    rewrite hours_00_23, minutes_00_59, D1, D2, D3, D4, Hh, Hm. now split.
Qed.

(** The regular expression of [email] accepts the values that hold
    text@text.text and no other. *)
Lemma email_test (s : string) : test emailRegExp s = true <-> hasEmailShape s.
Proof.
  assert (Htext : forall l, lang (Plus NonSpace) l <-> isText l).
  { intros l. unfold NonSpace, isText. rewrite lang_plus_class.
    split; intros [Hne H]; (split; [easy |]);
      (eapply Forall_impl; [| exact H]); simpl; intros c Hc.
    - now apply negb_true_iff.
    - now apply negb_true_iff. }
  rewrite test_spec. unfold hasEmailShape, emailRegExp, pattern, Chr. split.
  - intros (before & mid & after & Heq & Hl & _ & _).
    apply lang_seq in Hl as (a & r1 & -> & Ha & Hl).
    apply lang_seq in Hl as (at1 & r2 & -> & Hat & Hl).
    apply lang_class in Hat as (x & -> & Hx). apply Ascii.eqb_eq in Hx. subst x.
    apply lang_seq in Hl as (b & r3 & -> & Hb & Hl).
    apply lang_seq in Hl as (dot & c & -> & Hdot & Hc).
    apply lang_class in Hdot as (x & -> & Hx). apply Ascii.eqb_eq in Hx. subst x.
    exists before, a, b, c, after. rewrite Heq.
    split; [now rewrite <- !app_assoc |].
    repeat split; now apply Htext.
  - intros (before & a & b & c & after & Heq & Ha & Hb & Hc).
    exists before, (a ++ ["@"%char] ++ b ++ ["."%char] ++ c), after.
    split; [rewrite Heq; now rewrite <- !app_assoc |].
    split; [| split; discriminate].
    repeat (apply L_seq); try (now apply Htext);
      constructor; apply Ascii.eqb_refl.
Qed.




End FormatFacts.

(* ================================================================== *)
(** * The model: documents, the collection, the invariant *)
(* ================================================================== *)

Module ModelFacts.
Import Js JsFacts Schema Model Routes Spec.

Lemma app_nil_iff {A : Type} (l1 l2 : list A) : l1 ++ l2 = [] <-> l1 = [] /\ l2 = [].
Proof.
  split; [apply app_eq_nil | intros [-> ->]; reflexivity].
Qed.

Lemma v_required_nil (path : string) (v : option string) :
  v_required path v = [] <-> exists s, v = Some s /\ s <> "".
Proof.
  unfold v_required, checkRequired. destruct v as [[|c s]|]; simpl; split;
    try discriminate; try (intros (s' & Heq & Hne); congruence).
  intros _. exists (String c s). split; [reflexivity | discriminate].
Qed.

Lemma v_required_missing (path : string) :
  v_required path None = [(path, required)].
Proof. reflexivity. Qed.

Lemma v_match_nil (re : RegExp.JsRegExp) (path : string) (v : option string) :
  v_match re path v = [] <-> checkMatch re v = true.
Proof. unfold v_match. destruct (checkMatch re v); split; congruence. Qed.

Lemma validated_ok (p : Pharmacy) : validate p = [] -> validated p = ret tt.
Proof. unfold validated. now intros ->. Qed.

Lemma validated_throws (p : Pharmacy) :
  validate p <> [] -> validated p = throw (ValidationError (validate p)).
Proof. unfold validated. destruct (validate p); [congruence | reflexivity]. Qed.

(** ** Ids *)

Lemma castObjectId_error (id : string) (e : MongooseError) :
  castObjectId id = inl e -> e = CastError "ObjectId".
Proof.
  unfold castObjectId, ret, throw.
  destruct (Nat.eqb _ _); [destruct (parseHex _ _) |]; congruence.
Qed.

Lemma findOne_In (oid : ObjectId) (coll : Collection) (p : Pharmacy) :
  findOne oid coll = Some p -> In p coll /\ _id p = oid.
Proof.
  unfold findOne. intros H. apply find_some in H as [Hin Heq].
  apply N.eqb_eq in Heq. now split.
Qed.

Lemma findOne_unique (coll : Collection) (p : Pharmacy) :
  NoDup (map _id coll) -> In p coll -> findOne (_id p) coll = Some p.
Proof.
  unfold findOne. induction coll as [|d coll IH]; simpl; [easy |].
  intros Hnd [-> | Hin].
  - now rewrite N.eqb_refl.
  - inversion Hnd as [|? ? Hnotin Hnd']; subst.
    destruct (N.eqb (_id d) (_id p)) eqn:E; [| now apply IH].
    apply N.eqb_eq in E. exfalso. apply Hnotin. rewrite E. now apply in_map.
Qed.

Lemma findOne_None (oid : ObjectId) (coll : Collection) :
  findOne oid coll = None <-> forall p, In p coll -> _id p <> oid.
Proof.
  unfold findOne. split.
  - intros H p Hin Heq. eapply find_none in H; [| exact Hin].
    simpl in H. apply N.eqb_neq in H. contradiction.
  - intros H. destruct (find _ coll) as [p|] eqn:E; [| reflexivity].
    apply find_some in E as [Hin Heq]. apply N.eqb_eq in Heq.
    now destruct (H p Hin).
Qed.

(** ** [updateOne] *)

Lemma updateOne_ids (oid : ObjectId) (f : Pharmacy -> Pharmacy) (coll : Collection) :
  (forall d, _id d = oid -> _id (f d) = oid) ->
  map _id (updateOne oid f coll) = map _id coll.
Proof.
  intros Hf. induction coll as [|d coll IH]; simpl; [reflexivity |].
  destruct (N.eqb (_id d) oid) eqn:E; simpl; [| now rewrite IH].
  apply N.eqb_eq in E. rewrite (Hf d E). now rewrite E.
Qed.

Lemma updateOne_length (oid : ObjectId) (f : Pharmacy -> Pharmacy) (coll : Collection) :
  List.length (updateOne oid f coll) = List.length coll.
Proof.
  induction coll as [|d coll IH]; simpl; [reflexivity |].
  destruct (N.eqb (_id d) oid); simpl; congruence.
Qed.

Lemma updateOne_findOne (oid : ObjectId) (f : Pharmacy -> Pharmacy)
    (coll : Collection) (old : Pharmacy) :
  (forall d, _id d = oid -> _id (f d) = oid) ->
  findOne oid coll = Some old ->
  findOne oid (updateOne oid f coll) = Some (f old).
Proof.
  intros Hf. unfold findOne. induction coll as [|d coll IH]; simpl; [discriminate |].
  destruct (N.eqb (_id d) oid) eqn:E; simpl.
  - intros H. injection H as ->. apply N.eqb_eq in E.
    now rewrite (Hf old E), N.eqb_refl.
  - intros H. rewrite E. now apply IH.
Qed.

(** The other documents are where they were. *)
Lemma updateOne_others (oid : ObjectId) (f : Pharmacy -> Pharmacy)
    (coll : Collection) (d : Pharmacy) :
  _id d <> oid -> In d coll -> In d (updateOne oid f coll).
Proof.
  intros Hne. induction coll as [|x coll IH]; simpl; [easy |].
  destruct (N.eqb (_id x) oid) eqn:E.
  - intros [-> | Hin]; [| now right].
    apply N.eqb_eq in E. contradiction.
  - intros [-> | Hin]; [now left | right; now apply IH].
Qed.

(** What the rewritten collection holds: the new document, and the
    documents that were there. *)
Lemma updateOne_In (oid : ObjectId) (f : Pharmacy -> Pharmacy)
    (coll : Collection) (d : Pharmacy) :
  In d (updateOne oid f coll) ->
  In d coll \/ exists old, findOne oid coll = Some old /\ d = f old.
Proof.
  unfold findOne. induction coll as [|x coll IH]; simpl; [easy |].
  destruct (N.eqb (_id x) oid) eqn:E.
  - intros [<- | Hin]; [right; now exists x | left; now right].
  - intros [<- | Hin]; [left; now left |].
    destruct (IH Hin) as [H | H]; [left; now right | now right].
Qed.

(** The licenses after a rewrite that leaves them alone. *)
Lemma updateOne_licenses_same (oid : ObjectId) (f : Pharmacy -> Pharmacy)
    (coll : Collection) :
  (forall d, licenseNumber (f d) = licenseNumber d) ->
  map licenseNumber (updateOne oid f coll) = map licenseNumber coll.
Proof.
  intros Hf. induction coll as [|d coll IH]; simpl; [reflexivity |].
  destruct (N.eqb (_id d) oid); simpl; [now rewrite Hf | now rewrite IH].
Qed.

Lemma eqb_field_eq (a b : option string) : eqb_field a b = true <-> a = b.
Proof.
  destruct a, b; simpl; try (split; congruence).
  rewrite String.eqb_eq. split; congruence.
Qed.

Lemma existsb_license (coll : Collection) (v : option string) :
  existsb (fun d => eqb_field (licenseNumber d) v) coll = true
  <-> In v (map licenseNumber coll).
Proof.
  rewrite existsb_exists, in_map_iff. split.
  - intros (d & Hin & H). apply eqb_field_eq in H. now exists d.
  - intros (d & H & Hin). exists d. split; [easy | now apply eqb_field_eq].
Qed.

(** A new document with the license of a stored one is refused. *)
Lemma duplicateKey_license (coll : Collection) (p d : Pharmacy) :
  In d coll -> licenseNumber d = licenseNumber p -> duplicateKey coll p = true.
Proof.
  intros Hin Heq. unfold duplicateKey. apply existsb_exists. exists d.
  split; [easy |]. apply orb_true_iff. right. now apply eqb_field_eq.
Qed.

Lemma duplicateKey_false (coll : Collection) (p : Pharmacy) :
  duplicateKey coll p = false <->
  ~ In (_id p) (map _id coll) /\ ~ In (licenseNumber p) (map licenseNumber coll).
Proof.
  unfold duplicateKey. rewrite <- not_true_iff_false, existsb_exists. split.
  - intros H. split; intros Hin; apply in_map_iff in Hin as (d & Heq & Hin);
      apply H; exists d; (split; [easy |]); apply orb_true_iff.
    + left. now apply N.eqb_eq.
    + right. now apply eqb_field_eq.
  - intros [H1 H2] (d & Hin & H). apply orb_true_iff in H as [H | H].
    + apply N.eqb_eq in H. apply H1. rewrite <- H. now apply in_map.
    + apply eqb_field_eq in H. apply H2. rewrite <- H. now apply in_map.
Qed.

(** ** The invariant *)

Lemma doc_ok_license (p : Pharmacy) :
  doc_ok p -> exists l, licenseNumber p = Some l /\ l <> "" /\ Js.trim l = l.
Proof.
  intros [Hv Ht]. unfold validate in Hv.
  repeat (apply app_nil_iff in Hv as [? Hv]).
  match goal with H : v_required "licenseNumber" _ = [] |- _ =>
    apply v_required_nil in H as (l & Hl & Hne) end.
  exists l. rewrite Hl in Ht. simpl in Ht. injection Ht as Ht. now repeat split.
Qed.

Lemma wellFormed_nil : wellFormed [].
Proof. split; simpl; constructor. Qed.

Lemma wellFormed_In (coll : Collection) (p : Pharmacy) :
  wellFormed coll -> In p coll -> doc_ok p.
Proof. intros [_ _ H] Hin. rewrite Forall_forall in H. now apply H. Qed.

End ModelFacts.

(* ================================================================== *)
(** * The claims *)
(* ================================================================== *)

Import Js RegExp Schema Model Routes Spec Examples.
Import RegExpFacts JsFacts FormatFacts ModelFacts.

(** What [POST /] gives to the constructor. *)
Lemma post_unfold (oid : ObjectId) (now : Date) (body : Fields) (coll : Collection) :
  post oid now body coll =
  match save_new now (new oid (with_isActive None body)) coll with
  | inr (pharmacy, coll') => (mkResponse 201 (json_doc pharmacy), coll')
  | inl err => (post_catch err, coll)
  end.
Proof. reflexivity. Qed.

(** The three outcomes of [POST /]. *)
Lemma post_cases (oid : ObjectId) (now : Date) (body : Fields) (coll : Collection) :
  let doc := set_timestamps now (new oid (with_isActive None body)) in
  post oid now body coll =
  match validate doc with
  | [] => if duplicateKey coll doc then (duplicateLicense, coll)
          else (mkResponse 201 (json_doc doc), coll ++ [doc])
  | errs => (validationFailed errs, coll)
  end.
Proof.
  intros doc. rewrite post_unfold. unfold save_new, validated, insertOne.
  fold doc. destruct (validate doc); simpl; [| reflexivity].
  destruct (duplicateKey coll doc); reflexivity.
Qed.

Lemma missing_reported (oid : ObjectId) (now : Date) (body : Fields) (path : string) :
  In path (missing body) ->
  In (path, required) (validate (set_timestamps now (new oid (with_isActive None body)))).
Proof.
  unfold missing, validate. simpl. rewrite !in_app_iff.
  intros [H | [H | [H | H]]].
  - left. destruct (f_name body); simpl in *; [easy |].
    destruct H as [<- | []]. now left.
  - right; left. destruct (f_address body) as [a|]; simpl in *.
    + unfold missingOfAddress in H. unfold validateAddress. simpl.
      rewrite !in_app_iff in *.
      destruct H as [H | [H | [H | H]]].
      * left. destruct (street a); simpl in *; [easy |].
        destruct H as [<- | []]. now left.
      * right; left. destruct (city a); simpl in *; [easy |].
        destruct H as [<- | []]. now left.
      * right; right; left. destruct (state a); simpl in *; [easy |].
        destruct H as [<- | []]. now left.
      * right; right; right; left. destruct (zipCode a); simpl in *; [easy |].
        destruct H as [<- | []]. now left.
    + destruct H as [<- | []]. now left.
  - right; right; left. destruct (f_phoneNumber body); simpl in *; [easy |].
    destruct H as [<- | []]. now left.
  - right; right; right; right; left.
    destruct (f_licenseNumber body); simpl in *; [easy |].
    destruct H as [<- | []]. now left.
Qed.

(** C2. A create request whose body lacks [name], [address] (or one of
    [street], [city], [state], [zipCode] in it), [phoneNumber] or
    [licenseNumber] is answered 400 "Validation Error" with the errors by
    path, every missing path among them with the kind [required], and
    the collection is left as it was. *)
Theorem C2_create_missing_required_field
    (oid : ObjectId) (now : Date) (body : Fields) (coll : Collection) :
  missing body <> [] ->
  exists errs,
    post oid now body coll = (validationFailed errs, coll)
    /\ errs <> []
    /\ forall path, In path (missing body) -> In (path, required) errs.
Proof.
  intros Hm.
  pose proof (missing_reported oid now body) as Hrep.
  rewrite post_cases.
  destruct (validate (set_timestamps now (new oid (with_isActive None body))))
    as [|e errs] eqn:Hv.
  - destruct (missing body) as [|path l]; [congruence |].
    destruct (Hrep path (or_introl eq_refl)).
  - exists (e :: errs). repeat split; [discriminate | exact Hrep].
Qed.

Lemma C2_witness :
  missing onlyLicense <> []
  /\ exists errs,
       post 2%N 2000 onlyLicense coll1 = (validationFailed errs, coll1)
       /\ errs <> []
       /\ forall path, In path (missing onlyLicense) -> In (path, required) errs.
Proof.
  assert (H : missing onlyLicense <> []) by (vm_compute; discriminate).
  split; [exact H |].
  exact (C2_create_missing_required_field 2%N 2000 onlyLicense coll1 H).
Defined.

(** C9. The create handler gives the constructor the eight fields of the
    body and no [isActive]: the answer does not depend on the [isActive]
    of the body, and the record of a 201 holds the eight fields as the
    setters leave them, with [isActive] true. *)
Theorem C9_create_ignores_isActive
    (oid : ObjectId) (now : Date) (body : Fields) (coll : Collection) :
  (forall v, post oid now (with_isActive v body) coll = post oid now body coll)
  /\ (forall r coll',
        post oid now body coll = (r, coll') -> status r = 201%Z ->
        exists p,
          r = mkResponse 201 (json_doc p) /\ coll' = coll ++ [p]
          /\ isActive p = true
          /\ name p = set_trim (f_name body)
          /\ address p = option_map castAddress (f_address body)
          /\ phoneNumber p = set_trim (f_phoneNumber body)
          /\ licenseNumber p = set_trim (f_licenseNumber body)
          /\ email p = set_email (f_email body)
          /\ website p = set_trim (f_website body)
          /\ servicesOffered p = map Js.trim (orElse (f_servicesOffered body) [])
          /\ openingHours p = orElse (f_openingHours body) []).
Proof.
  split; [reflexivity |].
  intros r coll'. rewrite post_cases.
  destruct (validate _); [| intros [= <- <-]; discriminate].
  destruct (duplicateKey _ _); intros [= <- <-]; [discriminate |]. intros _.
  eexists. repeat split.
  simpl. now destruct (f_servicesOffered body).
Qed.

Lemma C9_witness :
  exists p,
    fst (post 1%N 1000 (with_isActive (Some false) acme) []) = mkResponse 201 (json_doc p)
    /\ isActive p = true.
Proof.
  destruct (C9_create_ignores_isActive 1%N 1000 acme []) as [Hsame Hdoc].
  rewrite Hsame.
  destruct (Hdoc (mkResponse 201 (json_doc acme_doc)) [acme_doc])
    as (p & Hr & _ & Hactive & _); [reflexivity | reflexivity |].
  exists p. split; [| exact Hactive].
  rewrite <- Hr. reflexivity.
Defined.

Lemma get_by_id_cases (id : string) (coll : Collection) :
  get_by_id id coll =
  match castObjectId id with
  | inl _ => notFoundInvalidId
  | inr oid =>
      match findOne oid coll with
      | Some p => if isActive p then res_json (json_doc p) else notFound
      | None => notFound
      end
  end.
Proof.
  unfold get_by_id, findById, bind.
  destruct (castObjectId id) as [e | oid] eqn:E.
  - apply castObjectId_error in E. now subst e.
  - simpl. destruct (findOne oid coll) as [p|]; [| reflexivity].
    now destruct (isActive p).
Qed.

(** C3. [GET /:id] answers 200 with the record exactly when a record
    with that id is stored and its [isActive] is true; in every other
    case (no such record, an inactive one, an id that is not in the
    format) it answers 404, and the malformed id gets the 404 of the
    invalid format, not a 500. *)
Theorem C3_get_by_id (id : string) (coll : Collection) :
  NoDup (map _id coll) ->
  (forall p, get_by_id id coll = res_json (json_doc p)
             <-> stored id coll p /\ isActive p = true)
  /\ (status (get_by_id id coll) = 200%Z
      <-> exists p, stored id coll p /\ isActive p = true)
  /\ (status (get_by_id id coll) = 200%Z \/ status (get_by_id id coll) = 404%Z)
  /\ (malformed id -> get_by_id id coll = notFoundInvalidId).
Proof.
  intros Hnd. rewrite get_by_id_cases. unfold stored, malformed.
  destruct (castObjectId id) as [e | oid] eqn:E.
  - repeat split; try discriminate; auto.
    + intros [(oid & Hc & _) _]. discriminate.
    + intros (p & (oid & Hc & _) & _). discriminate.
  - assert (Hfind : forall p, findOne oid coll = Some p <-> In p coll /\ _id p = oid).
    { intros p. split; [apply findOne_In |].
      intros [Hin <-]. now apply findOne_unique. }
    destruct (findOne oid coll) as [q|] eqn:F.
    + destruct (isActive q) eqn:A.
      * split; [| split; [| split]].
        -- intros p. split.
           ++ intros [= <-]. split; [| exact A].
              exists oid. split; [reflexivity | now apply Hfind].
           ++ intros [(oid' & [= <-] & Hp) _]. apply Hfind in Hp. congruence.
        -- split; [| reflexivity]. intros _. exists q. split; [| exact A].
           exists oid. split; [reflexivity | now apply Hfind].
        -- now left.
        -- intros (e & He). discriminate.
      * split; [| split; [| split]].
        -- intros p. split; [discriminate |].
           intros [(oid' & [= <-] & Hp) Ha]. apply Hfind in Hp. congruence.
        -- split; [discriminate |].
           intros (p & (oid' & [= <-] & Hp) & Ha). apply Hfind in Hp. congruence.
        -- now right.
        -- intros (e & He). discriminate.
    + split; [| split; [| split]].
      * intros p. split; [discriminate |].
        intros [(oid' & [= <-] & Hp) _]. apply Hfind in Hp. discriminate.
      * split; [discriminate |].
        intros (p & (oid' & [= <-] & Hp) & _). apply Hfind in Hp. discriminate.
      * now right.
      * intros (e & He). discriminate.
Qed.

Lemma C3_witness :
  NoDup (map _id coll1)
  /\ get_by_id id1 coll1 = res_json (json_doc acme_doc)
  /\ get_by_id "not-an-id" coll1 = notFoundInvalidId.
Proof.
  assert (Hnd : NoDup (map _id coll1)).
  { simpl. constructor; [intros [] | constructor]. }
  destruct (C3_get_by_id id1 coll1 Hnd) as [Hdoc _].
  destruct (C3_get_by_id "not-an-id" coll1 Hnd) as (_ & _ & _ & Hbad).
  split; [exact Hnd |]. split.
  - apply Hdoc. split; [| reflexivity].
    exists 1%N. split; [reflexivity |]. split; [now left | reflexivity].
  - apply Hbad. exists (CastError "ObjectId"). reflexivity.
Defined.

(** C1, as stated, fails: [coll1] holds a record with the license LIC-1,
    and a create request with that license and no other field is
    answered 400 "Validation Error", not the duplicate license message:
    validation runs before the insert that meets the unique index. *)
Lemma C1_counterexample :
  In acme_doc coll1
  /\ f_licenseNumber onlyLicense = licenseNumber acme_doc
  /\ fst (post 2%N 2000 onlyLicense coll1)
     = validationFailed
         [("name", required); ("address", required); ("phoneNumber", required)]
  /\ fst (post 2%N 2000 onlyLicense coll1) <> duplicateLicense.
Proof.
  split; [now left |]. split; [reflexivity |]. split; [reflexivity |].
  discriminate.
Qed.

(** C1, amended.  A create request whose [licenseNumber] is that of a
    stored record is answered 400 and never 201, and the collection is
    left as it was, without a second record with that license; the
    answer is the duplicate license message when the body passes
    validation, and the validation error otherwise. *)
Theorem C1_create_duplicate_license
    (oid : ObjectId) (now : Date) (body : Fields) (coll : Collection) (p : Pharmacy) :
  wellFormed coll -> In p coll -> f_licenseNumber body = licenseNumber p ->
  let doc := set_timestamps now (new oid (with_isActive None body)) in
  snd (post oid now body coll) = coll
  /\ status (fst (post oid now body coll)) = 400%Z
  /\ (validate doc = [] -> fst (post oid now body coll) = duplicateLicense)
  /\ (validate doc <> [] ->
      fst (post oid now body coll) = validationFailed (validate doc)).
Proof.
  intros Hwf Hin Hlic doc.
  assert (Hdup : duplicateKey coll doc = true).
  { apply duplicateKey_license with (d := p); [exact Hin |].
    destruct (doc_ok_license p (wellFormed_In coll p Hwf Hin)) as (l & Hl & _ & Ht).
    simpl. rewrite Hlic, Hl. simpl. now rewrite Ht. }
  rewrite post_cases. fold doc. rewrite Hdup.
  destruct (validate doc); simpl; repeat split; congruence.
Qed.

Lemma wellFormed_coll1 : wellFormed coll1.
Proof.
  split.
  - simpl. constructor; [intros [] | constructor].
  - simpl. constructor; [intros [] | constructor].
  - constructor; [| constructor]. split; reflexivity.
Qed.

Lemma C1_witness :
  fst (post 2%N 2000 acme coll1) = duplicateLicense
  /\ snd (post 2%N 2000 acme coll1) = coll1.
Proof.
  destruct (C1_create_duplicate_license 2%N 2000 acme coll1 acme_doc
              wellFormed_coll1 (or_introl eq_refl) eq_refl)
    as (Hcoll & _ & Hdup & _).
  split; [apply Hdup; reflexivity | exact Hcoll].
Defined.

(* ================================================================== *)
(** * The list endpoint *)
(* ================================================================== *)

Lemma string_leb_trans (a b c : string) :
  String.leb a b = true -> String.leb b c = true -> String.leb a c = true.
Proof.
  unfold String.leb. revert b c.
  induction a as [|x a IH]; intros [|y b] [|z c]; simpl; try easy.
  unfold Ascii.compare.
  destruct (N.compare_spec (N_of_ascii x) (N_of_ascii y)) as [Hxy | Hxy | Hxy];
    destruct (N.compare_spec (N_of_ascii y) (N_of_ascii z)) as [Hyz | Hyz | Hyz];
    destruct (N.compare_spec (N_of_ascii x) (N_of_ascii z)) as [Hxz | Hxz | Hxz];
    try easy; try lia.
  apply IH.
Qed.

Lemma name_le_trans (p q r : Pharmacy) : name_le p q -> name_le q r -> name_le p r.
Proof.
  unfold name_le, name_leb.
  destruct (name p), (name q), (name r); try easy. apply string_leb_trans.
Qed.

Lemma name_le_total (p q : Pharmacy) : name_le p q \/ name_le q p.
Proof.
  unfold name_le, name_leb.
  destruct (name p), (name q); auto. apply String.leb_total.
Qed.

Lemma insert_sorted_perm (p : Pharmacy) (l : list Pharmacy) :
  Permutation (insert_sorted p l) (p :: l).
Proof.
  induction l as [|q l IH]; simpl; [reflexivity |].
  destruct (name_leb p q); [reflexivity |].
  rewrite IH. apply perm_swap.
Qed.

Lemma sort_by_name_perm (l : list Pharmacy) : Permutation (sort_by_name l) l.
Proof.
  induction l as [|p l IH]; simpl; [reflexivity |].
  rewrite insert_sorted_perm. now constructor.
Qed.

Lemma insert_sorted_sorted (p : Pharmacy) (l : list Pharmacy) :
  StronglySorted name_le l -> StronglySorted name_le (insert_sorted p l).
Proof.
  induction 1 as [|q l Hs IH Hq]; simpl.
  - constructor; constructor.
  - destruct (name_leb p q) eqn:E.
    + constructor; [now constructor |].
      constructor; [exact E |].
      rewrite Forall_forall in *. intros x Hx.
      apply name_le_trans with q; [exact E | now apply Hq].
    + constructor; [exact IH |].
      rewrite Forall_forall in *. intros x Hx.
      apply (Permutation_in _ (insert_sorted_perm p l)) in Hx as [<- | Hx].
      * destruct (name_le_total q p) as [H | H]; [exact H |].
        unfold name_le in H. congruence.
      * now apply Hq.
Qed.

Lemma sort_by_name_sorted (l : list Pharmacy) : StronglySorted name_le (sort_by_name l).
Proof.
  induction l as [|p l IH]; simpl; [constructor | now apply insert_sorted_sorted].
Qed.

Lemma filter_ext_in_bool {A : Type} (f g : A -> bool) (l : list A) :
  (forall a, f a = g a) -> filter f l = filter g l.
Proof. intros H. apply filter_ext. exact H. Qed.

Lemma existsb_pointwise {A : Type} (f g : A -> bool) (l : list A) :
  (forall a, f a = g a) -> existsb f l = existsb g l.
Proof.
  intros H. induction l as [|a l IH]; simpl; [reflexivity |]. now rewrite H, IH.
Qed.

Lemma In_sort_by_name (p : Pharmacy) (l : list Pharmacy) :
  In p (sort_by_name l) <-> In p l.
Proof.
  split; apply Permutation_in; [| symmetry]; apply sort_by_name_perm.
Qed.

(** The filter of a request whose values compile keeps the documents
    that [listedBy] keeps. *)
Lemma filter_of_Some (other : Engine) (q : Query) (flt : Filter) :
  filter_of other q = Some flt ->
  (forall p, satisfies flt p = listedBy other q p)
  /\ ~ refused other (q_city q) /\ ~ refused other (q_service q).
Proof.
  unfold filter_of, regexp_of, refused, satisfies, listedBy, found.
  destruct (given (q_city q)) as [c|].
  - destruct (compile other c) as [|mc] eqn:Ec; [discriminate |].
    destruct (given (q_service q)) as [v|].
    + destruct (compile other v) as [|mv] eqn:Ev; [discriminate |].
      intros [= <-]. simpl. repeat split.
      * intros (x & [= <-] & H). congruence.
      * intros (x & [= <-] & H). congruence.
    + intros [= <-]. simpl. repeat split.
      * intros (x & [= <-] & H). congruence.
      * intros (x & H & _). discriminate.
  - destruct (given (q_service q)) as [v|].
    + destruct (compile other v) as [|mv] eqn:Ev; [discriminate |].
      intros [= <-]. simpl. repeat split.
      * intros (x & H & _). discriminate.
      * intros (x & [= <-] & H). congruence.
    + intros [= <-]. simpl. repeat split; intros (x & H & _); discriminate.
Qed.

Lemma filter_of_None (other : Engine) (q : Query) :
  filter_of other q = None ->
  refused other (q_city q) \/ refused other (q_service q).
Proof.
  unfold filter_of, regexp_of, refused.
  destruct (given (q_city q)) as [c|].
  - destruct (compile other c) as [|mc] eqn:Ec; [intros _; left; now exists c |].
    destruct (given (q_service q)) as [v|]; [| discriminate].
    destruct (compile other v) as [|mv] eqn:Ev; [| discriminate].
    intros _. right. now exists v.
  - destruct (given (q_service q)) as [v|]; [| discriminate].
    destruct (compile other v) as [|mv] eqn:Ev; [| discriminate].
    intros _. right. now exists v.
Qed.

(** The two answers of the list endpoint. *)
Lemma get_list_cases (other : Engine) (q : Query) (coll : Collection) :
  ((refused other (q_city q) \/ refused other (q_service q))
   /\ get_list other q coll = serverError)
  \/ (~ refused other (q_city q) /\ ~ refused other (q_service q)
      /\ get_list other q coll
         = res_json (json_docs (sort_by_name (filter (listedBy other q) coll)))).
Proof.
  unfold get_list. destruct (filter_of other q) as [flt|] eqn:E.
  - right. apply filter_of_Some in E as (Hsat & Hc & Hs).
    split; [exact Hc |]. split; [exact Hs |]. unfold find_sorted.
    now rewrite (filter_ext_in_bool _ _ coll Hsat).
  - left. split; [now apply filter_of_None | reflexivity].
Qed.






Lemma listedBy_active (other : Engine) (q : Query) (p : Pharmacy) :
  listedBy other q p = true -> isActive p = true.
Proof. unfold listedBy. rewrite !andb_true_iff. tauto. Qed.

(** What the list endpoint returns is stored and kept by [listedBy]. *)
Lemma returned_spec (other : Engine) (q : Query) (coll : Collection) (d : Pharmacy) :
  returned (get_list other q coll) d
  <-> ~ refused other (q_city q) /\ ~ refused other (q_service q)
      /\ In d coll /\ listedBy other q d = true.
Proof.
  destruct (get_list_cases other q coll) as [[Hr ->] | (Hc & Hs & ->)];
    unfold returned; simpl.
  - split; [easy | tauto].
  - rewrite In_sort_by_name, filter_In. tauto.
Qed.




(* ================================================================== *)
(** * Update and soft delete *)
(* ================================================================== *)

Lemma put_cases (now : Date) (id : string) (body : Fields) (coll : Collection) :
  put now id body coll =
  match castObjectId id with
  | inl _ => (notFoundInvalidId, coll)
  | inr oid =>
      match findOne oid coll with
      | None => (notFound, coll)
      | Some old =>
          let p := set_updatedAt now (applySet (castFields body) old) in
          match validateUpdate (castFields body) with
          | [] => if keyTaken coll old p then (duplicateOnUpdate, coll)
                  else (res_json (json_doc p), updateOne oid (fun _ => p) coll)
          | errs => (validationFailed errs, coll)
          end
      end
  end.
Proof.
  unfold put, findByIdAndUpdate, findById, bind.
  destruct (castObjectId id) as [e | oid] eqn:E.
  - apply castObjectId_error in E. now subst e.
  - simpl. destruct (findOne oid coll) as [old|]; [| reflexivity].
    destruct (validateUpdate (castFields body)); [| reflexivity].
    now destruct (keyTaken _ _ _).
Qed.

Lemma validate_set_isActive (b : bool) (p : Pharmacy) :
  validate (set_isActive b p) = validate p.
Proof. reflexivity. Qed.

Lemma validate_set_updatedAt (now : Date) (p : Pharmacy) :
  validate (set_updatedAt now p) = validate p.
Proof. reflexivity. Qed.

Lemma delete_cases (now : Date) (id : string) (coll : Collection) :
  delete now id coll =
  match castObjectId id with
  | inl _ => (notFoundInvalidId, coll)
  | inr oid =>
      match findOne oid coll with
      | None => (notFound, coll)
      | Some p =>
          match validate p with
          | [] =>
              (markedInactive,
               if isActive p then
                 updateOne (_id p) (fun d => set_updatedAt now (set_isActive false d)) coll
               else coll)
          | _ => (serverError, coll)
          end
      end
  end.
Proof.
  unfold delete, findById, save_loaded, validated, bind.
  destruct (castObjectId id) as [e | oid] eqn:E.
  - apply castObjectId_error in E. now subst e.
  - simpl. destruct (findOne oid coll) as [p|]; [| reflexivity].
    rewrite validate_set_isActive. destruct (validate p); [| reflexivity].
    simpl. now destruct (isActive p).
Qed.

Lemma stored_findOne (id : string) (coll : Collection) (p : Pharmacy) :
  NoDup (map _id coll) ->
  stored id coll p <-> castObjectId id = inr (_id p) /\ findOne (_id p) coll = Some p.
Proof.
  intros Hnd. unfold stored. split.
  - intros (oid & Hc & Hin & <-). split; [exact Hc | now apply findOne_unique].
  - intros [Hc Hf]. exists (_id p). split; [exact Hc |].
    apply findOne_In in Hf. now split.
Qed.

Lemma not_stored_404 (id : string) (coll : Collection) :
  (forall p, ~ stored id coll p) ->
  match castObjectId id with
  | inl _ => True
  | inr oid => findOne oid coll = None
  end.
Proof.
  intros H. destruct (castObjectId id) as [e | oid] eqn:E; [exact I |].
  destruct (findOne oid coll) as [p|] eqn:F; [| reflexivity].
  exfalso. apply (H p). exists oid. split; [exact E |]. now apply findOne_In.
Qed.

Lemma NoDup_map_eq {A B : Type} (f : A -> B) (l : list A) (a b : A) :
  NoDup (map f l) -> In a l -> In b l -> f a = f b -> a = b.
Proof.
  induction l as [|x l IH]; simpl; [easy |].
  intros Hnd Ha Hb Heq. inversion Hnd as [|? ? Hnotin Hnd']; subst.
  destruct Ha as [-> | Ha], Hb as [-> | Hb]; try reflexivity.
  - exfalso. apply Hnotin. rewrite Heq. now apply in_map.
  - exfalso. apply Hnotin. rewrite <- Heq. now apply in_map.
  - now apply IH.
Qed.

(** In a collection that satisfies the invariant, the index refuses the
    rewrite exactly when the new license is that of another record. *)
Lemma keyTaken_spec (coll : Collection) (old p : Pharmacy) :
  wellFormed coll -> In old coll ->
  keyTaken coll old p = true <-> licenseOfAnother coll old p.
Proof.
  intros [Hids Hlics _] Hold. unfold keyTaken, licenseOfAnother.
  rewrite andb_true_iff, negb_true_iff, existsb_license, in_map_iff. split.
  - intros [Hne (d & Heq & Hin)]. exists d. repeat split; [exact Hin | | exact Heq].
    intros Hid. assert (d = old) by (apply (NoDup_map_eq _id coll); assumption).
    subst d.
    rewrite <- not_true_iff_false in Hne. apply Hne. now apply eqb_field_eq.
  - intros (d & Hin & Hid & Heq). split; [| now exists d].
    rewrite <- not_true_iff_false. intros H. apply eqb_field_eq in H.
    apply Hid. f_equal. apply (NoDup_map_eq licenseNumber coll); try assumption.
    congruence.
Qed.

(** The update validators on the payload, and the validity of the stored
    document, make the merged document valid. *)
Lemma validate_applySet (f : Fields) (old : Pharmacy) :
  validate old = [] -> validateUpdate f = [] -> validate (applySet f old) = [].
Proof.
  unfold validate, validateUpdate. simpl. intros Ho Hu.
  repeat (apply app_nil_iff in Ho as [? Ho]).
  repeat (apply app_nil_iff in Hu as [? Hu]).
  repeat (apply app_nil_iff; split).
  - destruct (f_name f); assumption.
  - destruct (f_address f); assumption.
  - destruct (f_phoneNumber f); assumption.
  - destruct (f_email f); assumption.
  - destruct (f_licenseNumber f); assumption.
  - destruct (f_openingHours f); assumption.
Qed.

Lemma kept_applySet (body : Fields) (now : Date) (old : Pharmacy) :
  kept body old (set_updatedAt now (applySet (castFields body) old)).
Proof.
  unfold kept. simpl. repeat split; intros ->; reflexivity.
Qed.

Lemma written_applySet (body : Fields) (now : Date) (old : Pharmacy) :
  written body (set_updatedAt now (applySet (castFields body) old)).
Proof.
  unfold written. simpl. repeat split; intros v ->; reflexivity.
Qed.

(** C5, as stated, fails on [updatedAt]: the update of [acme_doc] at
    time 1500 with a payload that holds [website] alone is answered 200,
    and [updatedAt], a top-level field that the payload does not hold,
    is 1500 in the stored record and was 1000. *)
Lemma C5_counterexample :
  exists p,
    put 1500 id1 onlyWebsite coll1 = (res_json (json_doc p), [p])
    /\ stored id1 coll1 acme_doc
    /\ updatedAt acme_doc = Some 1000%Z
    /\ updatedAt p = Some 1500%Z
    /\ updatedAt p <> updatedAt acme_doc.
Proof.
  eexists. split; [reflexivity |]. split.
  - exists 1%N. split; [reflexivity |]. split; [now left | reflexivity].
  - repeat split. discriminate.
Qed.

(** C5, amended.  An update request on the id of a stored record merges
    the payload into the record: every top-level field that the payload
    does not hold, other than the timestamp [updatedAt] (which the write
    sets to its time), keeps its value, every field that it holds is
    written as the setters leave it, and the other records are not
    touched; the payload is validated and the merged record is valid;
    the answer is 200 with the record as it is after the update.  A
    payload that fails validation is answered 400 with the errors, a
    license that belongs to another record 400 with the duplicate key
    message, both without a write; an id that is not stored, missing or
    malformed, is answered 404. *)
Theorem C5_update_merges
    (now : Date) (id : string) (body : Fields) (coll : Collection) :
  wellFormed coll ->
  (forall old, stored id coll old ->
     let p := set_updatedAt now (applySet (castFields body) old) in
     (validateUpdate (castFields body) <> [] ->
        put now id body coll
        = (validationFailed (validateUpdate (castFields body)), coll))
     /\ (validateUpdate (castFields body) = [] -> licenseOfAnother coll old p ->
           put now id body coll = (duplicateOnUpdate, coll))
     /\ (validateUpdate (castFields body) = [] -> ~ licenseOfAnother coll old p ->
           put now id body coll
           = (res_json (json_doc p), updateOne (_id old) (fun _ => p) coll)
           /\ kept body old p
           /\ written body p
           /\ validate p = []
           /\ stored id (updateOne (_id old) (fun _ => p) coll) p
           /\ (forall d, In d coll -> _id d <> _id old ->
                 In d (updateOne (_id old) (fun _ => p) coll))))
  /\ ((forall old, ~ stored id coll old) ->
        snd (put now id body coll) = coll
        /\ status (fst (put now id body coll)) = 404%Z
        /\ (malformed id -> fst (put now id body coll) = notFoundInvalidId)).
Proof.
  intros Hwf. split.
  - intros old Hst. cbv zeta.
    pose proof (wf_ids _ Hwf) as Hnd.
    apply (stored_findOne _ _ _ Hnd) in Hst as [Hc Hf].
    pose proof (findOne_In _ _ _ Hf) as [Hin _].
    rewrite put_cases, Hc, Hf. cbv zeta.
    set (p := set_updatedAt now (applySet (castFields body) old)).
    pose proof (keyTaken_spec coll old p Hwf Hin) as Hkey.
    split; [| split].
    + destruct (validateUpdate (castFields body)); [congruence | reflexivity].
    + intros Hv Hd. rewrite Hv. apply Hkey in Hd. now rewrite Hd.
    + intros Hv Hfree. rewrite Hv.
      destruct (keyTaken coll old p) eqn:K;
        [exfalso; apply Hfree; now apply Hkey |].
      split; [reflexivity |]. split; [apply kept_applySet |].
      split; [apply written_applySet |]. split; [| split].
      * unfold p. rewrite validate_set_updatedAt. apply validate_applySet; [| exact Hv].
        now apply (wellFormed_In coll old Hwf Hin).
      * exists (_id old). split; [exact Hc |]. split; [| reflexivity].
        apply findOne_In with (oid := _id old).
        now apply (updateOne_findOne (_id old) (fun _ => p) coll old).
      * intros d Hd Hne. now apply updateOne_others.
  - intros Hno. apply not_stored_404 in Hno. rewrite put_cases. unfold malformed.
    destruct (castObjectId id) as [e | oid].
    + repeat split.
    + rewrite Hno. repeat split. intros (e & He). discriminate.
Qed.

Lemma C5_witness :
  exists p,
    put 1500 id1 onlyWebsite coll1 = (res_json (json_doc p), [p])
    /\ kept onlyWebsite acme_doc p
    /\ website p = Some "https://acme.example"
    /\ name p = Some "Acme"
    /\ put 1500 id2 onlyWebsite coll1 = (notFound, coll1).
Proof.
  destruct (C5_update_merges 1500 id1 onlyWebsite coll1 wellFormed_coll1)
    as [Hput _].
  assert (Hst : stored id1 coll1 acme_doc).
  { exists 1%N. split; [reflexivity |]. split; [now left | reflexivity]. }
  destruct (Hput acme_doc Hst) as (_ & _ & Hok).
  assert (Hfree : ~ licenseOfAnother coll1 acme_doc
                      (set_updatedAt 1500 (applySet (castFields onlyWebsite) acme_doc))).
  { intros (d & [<- | []] & Hne & _). now apply Hne. }
  destruct (Hok eq_refl Hfree) as (Hp & Hkept & _).
  eexists. split; [exact Hp |]. split; [exact Hkept |].
  repeat split.
Defined.

(** C6, as stated, fails on [updatedAt]: the soft delete of [acme_doc]
    at time 1500 stores the record with [updatedAt] 1500, where it was
    1000. *)
Lemma C6_counterexample :
  stored id1 coll1 acme_doc
  /\ delete 1500 id1 coll1 = (markedInactive, [acme_inactive])
  /\ updatedAt acme_doc = Some 1000%Z
  /\ updatedAt acme_inactive = Some 1500%Z
  /\ updatedAt acme_inactive <> updatedAt acme_doc.
Proof.
  split.
  - exists 1%N. split; [reflexivity |]. split; [now left | reflexivity].
  - repeat split. discriminate.
Qed.

(** C6, amended.  A delete request on the id of a stored record is
    answered 200 with the confirmation message; the record stays in the
    collection, under the same id, with [isActive] false and every other
    field unchanged except the timestamp [updatedAt] (set to the time of
    the delete when the record was active); no record is removed and the
    others are untouched; a get-by-id request for that id is then
    answered 404. *)
Theorem C6_soft_delete (now : Date) (id : string) (coll : Collection) (p : Pharmacy) :
  wellFormed coll -> stored id coll p ->
  exists coll' q,
    delete now id coll = (markedInactive, coll')
    /\ stored id coll' q
    /\ isActive q = false
    /\ sameButFlag p q
    /\ updatedAt q = (if isActive p then Some now else updatedAt p)
    /\ map _id coll' = map _id coll
    /\ (forall d, In d coll -> _id d <> _id p -> In d coll')
    /\ get_by_id id coll' = notFound.
Proof.
  intros Hwf Hst.
  pose proof (wf_ids _ Hwf) as Hnd.
  pose proof Hst as Hst'.
  apply (stored_findOne _ _ _ Hnd) in Hst' as [Hc Hf].
  pose proof (findOne_In _ _ _ Hf) as [Hin _].
  destruct (wellFormed_In coll p Hwf Hin) as [Hv _].
  rewrite delete_cases, Hc, Hf, Hv.
  destruct (isActive p) eqn:A.
  - set (g := fun d => set_updatedAt now (set_isActive false d)).
    assert (Hg : forall d, _id d = _id p -> _id (g d) = _id p) by (intros d Hd; exact Hd).
    pose proof (updateOne_findOne (_id p) g coll p Hg Hf) as Hf'.
    exists (updateOne (_id p) g coll), (g p).
    split; [reflexivity |]. split; [| split; [| split; [| split; [| split; [| split]]]]].
    + exists (_id p). split; [exact Hc |]. split; [| reflexivity].
      now apply findOne_In with (oid := _id p).
    + reflexivity.
    + repeat split.
    + reflexivity.
    + now apply updateOne_ids.
    + intros d Hd Hne. now apply updateOne_others.
    + rewrite get_by_id_cases, Hc, Hf'. reflexivity.
  - exists coll, p.
    split; [reflexivity |]. split; [exact Hst |]. split; [exact A |].
    split; [repeat split |]. split; [reflexivity |]. split; [reflexivity |].
    split; [auto |].
    rewrite get_by_id_cases, Hc, Hf, A. reflexivity.
Qed.

Lemma C6_witness :
  exists coll' q,
    delete 1500 id1 coll1 = (markedInactive, coll')
    /\ stored id1 coll' q
    /\ isActive q = false
    /\ sameButFlag acme_doc q
    /\ get_by_id id1 coll' = notFound.
Proof.
  assert (Hst : stored id1 coll1 acme_doc).
  { exists 1%N. split; [reflexivity |]. split; [now left | reflexivity]. }
  destruct (C6_soft_delete 1500 id1 coll1 acme_doc wellFormed_coll1 Hst)
    as (coll' & q & Hd & Hq & Ha & Hsame & _ & _ & _ & Hget).
  exists coll', q.
  exact (conj Hd (conj Hq (conj Ha (conj Hsame Hget)))).
Defined.

Lemma keyTaken_same_license (coll : Collection) (old p : Pharmacy) :
  licenseNumber p = licenseNumber old -> keyTaken coll old p = false.
Proof.
  intros H. unfold keyTaken.
  assert (E : eqb_field (licenseNumber old) (licenseNumber p) = true)
    by (now apply eqb_field_eq).
  now rewrite E.
Qed.

(** C10.  Update and delete look for the record and do not read its
    [isActive]: on the id of a stored record with [isActive] false, GET
    answers 404, DELETE answers 200 with the confirmation, PUT answers
    200 for every payload that passes the update validators and takes no
    license of another record; a PUT with [isActive: true] brings the
    record back, and GET then answers 200 with it. *)
Theorem C10_inactive_record_update_delete
    (now : Date) (id : string) (coll : Collection) (p : Pharmacy) :
  wellFormed coll -> stored id coll p -> isActive p = false ->
  get_by_id id coll = notFound
  /\ fst (delete now id coll) = markedInactive
  /\ (forall body,
        validateUpdate (castFields body) = [] ->
        ~ licenseOfAnother coll p (set_updatedAt now (applySet (castFields body) p)) ->
        put now id body coll
        = (res_json (json_doc (set_updatedAt now (applySet (castFields body) p))),
           updateOne (_id p)
             (fun _ => set_updatedAt now (applySet (castFields body) p)) coll))
  /\ (exists q coll',
        put now id (with_isActive (Some true) noFields) coll = (res_json (json_doc q), coll')
        /\ isActive q = true
        /\ sameButFlag p q
        /\ get_by_id id coll' = res_json (json_doc q)).
Proof.
  intros Hwf Hst Hinactive.
  pose proof (wf_ids _ Hwf) as Hnd.
  apply (stored_findOne _ _ _ Hnd) in Hst as [Hc Hf].
  pose proof (findOne_In _ _ _ Hf) as [Hin _].
  destruct (wellFormed_In coll p Hwf Hin) as [Hv _].
  split; [| split; [| split]].
  - now rewrite get_by_id_cases, Hc, Hf, Hinactive.
  - now rewrite delete_cases, Hc, Hf, Hv.
  - intros body Hu Hfree. rewrite put_cases, Hc, Hf. cbv zeta. rewrite Hu.
    set (q := set_updatedAt now (applySet (castFields body) p)) in *.
    destruct (keyTaken coll p q) eqn:K; [| reflexivity].
    exfalso. apply Hfree. now apply (keyTaken_spec coll p q Hwf Hin).
  - set (q := set_updatedAt now
                (applySet (castFields (with_isActive (Some true) noFields)) p)).
    exists q, (updateOne (_id p) (fun _ => q) coll).
    split; [| split; [| split]].
    + rewrite put_cases, Hc, Hf. cbv zeta. fold q.
      change (validateUpdate (castFields (with_isActive (Some true) noFields)))
        with (@nil (string * ValidatorKind)).
      now rewrite (keyTaken_same_license coll p q eq_refl).
    + reflexivity.
    + repeat split.
    + rewrite get_by_id_cases, Hc.
      now rewrite (updateOne_findOne (_id p) (fun _ => q) coll p (fun _ _ => eq_refl) Hf).
Qed.

Lemma C10_witness :
  get_by_id id1 [acme_inactive] = notFound
  /\ fst (delete 2000 id1 [acme_inactive]) = markedInactive
  /\ exists q coll',
       put 2000 id1 (with_isActive (Some true) noFields) [acme_inactive]
       = (res_json (json_doc q), coll')
       /\ isActive q = true
       /\ get_by_id id1 coll' = res_json (json_doc q).
Proof.
  assert (Hwf : wellFormed [acme_inactive]).
  { split.
    - simpl. constructor; [intros [] | constructor].
    - simpl. constructor; [intros [] | constructor].
    - constructor; [| constructor]. split; reflexivity. }
  assert (Hst : stored id1 [acme_inactive] acme_inactive).
  { exists 1%N. split; [reflexivity |]. split; [now left | reflexivity]. }
  destruct (C10_inactive_record_update_delete 2000 id1 [acme_inactive] acme_inactive
              Hwf Hst eq_refl)
    as (Hget & Hdel & _ & q & coll' & Hput & Hq & _ & Hget').
  split; [exact Hget |]. split; [exact Hdel |].
  exists q, coll'. exact (conj Hput (conj Hq Hget')).
Defined.

(* ================================================================== *)
(** * Opening hours and email *)
(* ================================================================== *)

Lemma v_number_nil (path : string) (v : option Number) :
  v_number path v = [] <-> exists n, v = Some n /\ inRange n.
Proof.
  unfold v_number, inRange, ValidationErrors. destruct v as [n|]; cbv iota beta.
  - rewrite app_nil_iff. split.
    + intros [H0 H6]. exists n. split; [reflexivity |].
      split; apply Qle_bool_iff.
      * destruct (Qle_bool 0 n); [reflexivity | discriminate].
      * destruct (Qle_bool n 6); [reflexivity | discriminate].
    + intros (n' & [= <-] & H0 & H6).
      apply Qle_bool_iff in H0, H6. now rewrite H0, H6.
  - split; [discriminate | intros (n & H & _); discriminate].
Qed.

(** A required time of day passes its two validators exactly when it is
    an HH:MM value. *)
Lemma v_time_nil (path : string) (v : option string) :
  v_required path v = [] /\ v_match timeRegExp path v = []
  <-> exists s, v = Some s /\ isHHMM s = true.
Proof.
  rewrite v_required_nil, v_match_nil. unfold checkMatch. split.
  - intros [(s & -> & Hne) Hm]. exists s. split; [reflexivity |].
    rewrite time_test in Hm. destruct s; [congruence | exact Hm].
  - intros (s & -> & Hs). split.
    + exists s. split; [reflexivity |]. intros ->. discriminate.
    + rewrite time_test, Hs. apply orb_true_r.
Qed.

Lemma validateOpeningHours_nil (prefix : string) (h : OpeningHours) :
  validateOpeningHours prefix h = [] <-> hoursAccepted h.
Proof.
  unfold validateOpeningHours, hoursAccepted, ValidationErrors.
  rewrite !app_nil_iff. fold ValidationErrors. rewrite v_number_nil.
  rewrite <- (v_time_nil (prefix ++ "openTime") (openTime h)).
  rewrite <- (v_time_nil (prefix ++ "closeTime") (closeTime h)).
  tauto.
Qed.

Lemma validateHoursFrom_nil (i : nat) (l : list OpeningHours) :
  validateHoursFrom i l = [] <-> Forall hoursAccepted l.
Proof.
  revert i. induction l as [|h l IH]; intros i; simpl.
  - split; [constructor | reflexivity].
  - unfold ValidationErrors. rewrite app_nil_iff. fold ValidationErrors.
    rewrite validateOpeningHours_nil, IH. split.
    + intros [H1 H2]. now constructor.
    + intros H. inversion H; subst. now split.
Qed.

Lemma validate_new_hours (oid : ObjectId) (now : Date) (body : Fields) :
  validate (set_timestamps now (new oid (with_isActive None body)))
  = validate (set_timestamps now
                (new oid (with_isActive None (with_openingHours None body))))
    ++ validateHoursFrom 0 (orElse (f_openingHours body) []).
Proof.
  unfold validate. simpl. rewrite app_nil_r, <- !app_assoc.
  now destruct (f_openingHours body).
Qed.

Lemma validateUpdate_hours (body : Fields) :
  validateUpdate (castFields body)
  = validateUpdate (castFields (with_openingHours None body))
    ++ match f_openingHours body with
       | Some l => validateHoursFrom 0 l
       | None => []
       end.
Proof.
  unfold validateUpdate. simpl. now rewrite app_nil_r, <- !app_assoc.
Qed.

(** [POST /] answers with the validation error exactly when the new
    document fails validation. *)
Lemma post_rejects (oid : ObjectId) (now : Date) (body : Fields) (coll : Collection) :
  (exists errs, post oid now body coll = (validationFailed errs, coll))
  <-> validate (set_timestamps now (new oid (with_isActive None body))) <> [].
Proof.
  rewrite post_cases. cbv zeta.
  destruct (validate _) as [|e errs].
  - split; [| congruence]. intros (errs & H).
    destruct (duplicateKey _ _); discriminate.
  - split; [discriminate | intros _; now exists (e :: errs)].
Qed.

(** [PUT /:id], on the id of a stored record, answers with the
    validation error exactly when the payload fails the update
    validators. *)
Lemma put_rejects (now : Date) (id : string) (body : Fields) (coll : Collection)
    (old : Pharmacy) :
  NoDup (map _id coll) -> stored id coll old ->
  (exists errs, put now id body coll = (validationFailed errs, coll))
  <-> validateUpdate (castFields body) <> [].
Proof.
  intros Hnd Hst. apply (stored_findOne _ _ _ Hnd) in Hst as [Hc Hf].
  rewrite put_cases, Hc, Hf. cbv zeta.
  destruct (validateUpdate _) as [|e errs].
  - split; [| congruence]. intros (errs & H).
    destruct (keyTaken _ _ _); discriminate.
  - split; [discriminate | intros _; now exists (e :: errs)].
Qed.

Lemma app_not_nil {A : Type} (l1 l2 : list A) :
  l1 ++ l2 <> [] <-> l1 <> [] \/ l2 <> [].
Proof.
  destruct l1; simpl.
  - split; [now right | intros [H | H]; congruence].
  - split; [left | ]; discriminate.
Qed.

Lemma not_integer_half : ~ isInteger (5 # 2)%Q.
Proof.
  intros (z & H). unfold Qeq in H. simpl in H. lia.
Qed.

(** C7, as stated, fails on [dayOfWeek]: the schema declares a Number
    between 0 and 6 and does not ask for an integer.  A create request
    with an entry whose [dayOfWeek] is 2.5 is answered 201. *)
Lemma C7_counterexample :
  exists p,
    post 1%N 1000 (withHours halfDay acme) [] = (mkResponse 201 (json_doc p), [p])
    /\ openingHours p = [halfDay]
    /\ dayOfWeek halfDay = Some (5 # 2)%Q
    /\ ~ isInteger (5 # 2)%Q.
Proof.
  eexists. split; [reflexivity |]. repeat split. exact not_integer_half.
Qed.

(** C7, amended.  An entry of [openingHours] is accepted exactly when
    [openTime] and [closeTime] are HH:MM values of the 24-hour clock
    (hours 00 to 23, minutes 00 to 59) and [dayOfWeek] is a number from
    0 to 6, whole or not; the three conditions are separate, and nothing
    compares [closeTime] with [openTime].  A create request, and an
    update request on a stored id, whose payload holds [openingHours] is
    answered with the validation error exactly when an entry is not
    accepted or the rest of the payload fails validation.  "09:00" is
    an HH:MM value and "25:00" is not. *)
Theorem C7_opening_hours_validation :
  (forall prefix h, validateOpeningHours prefix h = [] <-> hoursAccepted h)
  /\ (forall oid now body coll l,
        f_openingHours body = Some l ->
        (exists errs, post oid now body coll = (validationFailed errs, coll))
        <-> (~ Forall hoursAccepted l
             \/ exists errs,
                  post oid now (with_openingHours None body) coll
                  = (validationFailed errs, coll)))
  /\ (forall now id body coll old l,
        wellFormed coll -> stored id coll old ->
        f_openingHours body = Some l ->
        (exists errs, put now id body coll = (validationFailed errs, coll))
        <-> (~ Forall hoursAccepted l
             \/ exists errs,
                  put now id (with_openingHours None body) coll
                  = (validationFailed errs, coll)))
  /\ isHHMM "09:00" = true
  /\ isHHMM "25:00" = false
  /\ (forall prefix n o c,
        inRange n -> isHHMM o = true -> isHHMM c = true ->
        validateOpeningHours prefix (mkOpeningHours (Some n) (Some o) (Some c)) = []).
Proof.
  split; [exact validateOpeningHours_nil |].
  split; [| split; [| split; [reflexivity | split; [reflexivity |]]]].
  - intros oid now body coll l Hl.
    rewrite !post_rejects, validate_new_hours, Hl. simpl orElse.
    unfold ValidationErrors.
    rewrite app_not_nil, <- validateHoursFrom_nil with (i := 0%nat). tauto.
  - intros now id body coll old l Hwf Hst Hl.
    pose proof (wf_ids _ Hwf) as Hnd.
    rewrite !(put_rejects now id _ coll old Hnd Hst), validateUpdate_hours, Hl.
    unfold ValidationErrors.
    rewrite app_not_nil, <- validateHoursFrom_nil with (i := 0%nat). tauto.
  - intros prefix n o c Hn Ho Hc. apply validateOpeningHours_nil.
    split; [now exists n |]. split; [now exists o | now exists c].
Qed.

Lemma C7_witness :
  (exists errs,
     post 1%N 1000 (withHours (monday "25:00" "18:00") acme) []
     = (validationFailed errs, []))
  /\ validateOpeningHours "openingHours.0." (monday "18:00" "09:00") = [].
Proof.
  destruct C7_opening_hours_validation as (_ & Hpost & _ & _ & Hbad & Hfree).
  split.
  - apply (Hpost 1%N 1000%Z (withHours (monday "25:00" "18:00") acme) []
             [monday "25:00" "18:00"] eq_refl).
    left. intros H. inversion H as [|? ? (_ & (o & Ho & Hhm) & _) _]; subst.
    injection Ho as <-. rewrite Hbad in Hhm. discriminate.
  - apply Hfree; [split; discriminate | reflexivity | reflexivity].
Defined.

Lemma email_checkMatch (e : string) :
  checkMatch emailRegExp (set_email (Some e)) = true <-> emailAccepted e.
Proof.
  unfold checkMatch, set_email, emailAccepted. simpl.
  now rewrite orb_true_iff, isEmpty_true, email_test.
Qed.

Lemma v_match_email_rejects (e : string) :
  v_match emailRegExp "email" (set_email (Some e)) <> [] <-> ~ emailAccepted e.
Proof.
  rewrite <- email_checkMatch. unfold v_match.
  destruct (checkMatch emailRegExp (set_email (Some e))); split; congruence.
Qed.

Lemma validate_new_email (oid : ObjectId) (now : Date) (body : Fields) :
  validate (set_timestamps now (new oid (with_isActive None body))) <> []
  <-> v_match emailRegExp "email" (set_email (f_email body)) <> []
      \/ validate (set_timestamps now
                     (new oid (with_isActive None (with_email None body)))) <> [].
Proof.
  unfold validate, ValidationErrors. simpl. rewrite !app_not_nil.
  change (v_match emailRegExp "email" None) with (@nil (string * ValidatorKind)).
  intuition congruence.
Qed.

Lemma validateUpdate_email (body : Fields) :
  validateUpdate (castFields body) <> []
  <-> v_match emailRegExp "email" (set_email (f_email body)) <> []
      \/ validateUpdate (castFields (with_email None body)) <> [].
Proof.
  unfold validateUpdate, ValidationErrors. simpl. rewrite !app_not_nil.
  change (v_match emailRegExp "email" None) with (@nil (string * ValidatorKind)).
  intuition congruence.
Qed.

(** The paths of the errors of the other validators are not [email]. *)
Lemma v_required_path (path x : string) (k : ValidatorKind) (v : option string) :
  In (x, k) (v_required path v) -> x = path.
Proof.
  unfold v_required. destruct (checkRequired v); simpl; [easy |].
  intros [[= <- _] | []]. reflexivity.
Qed.

Lemma v_match_path (re : JsRegExp) (path x : string) (k : ValidatorKind)
    (v : option string) :
  In (x, k) (v_match re path v) -> x = path.
Proof.
  unfold v_match. destruct (checkMatch re v); simpl; [easy |].
  intros [[= <- _] | []]. reflexivity.
Qed.

Lemma v_number_path (path x : string) (k : ValidatorKind) (v : option Number) :
  In (x, k) (v_number path v) -> x = path.
Proof.
  unfold v_number. destruct v as [n|]; simpl.
  - destruct (Qle_bool 0 n), (Qle_bool n 6); simpl;
      intuition (try congruence).
  - intros [[= <- _] | []]. reflexivity.
Qed.

Lemma validateAddress_path (x : string) (k : ValidatorKind) (a : Address) :
  In (x, k) (validateAddress "address." a) ->
  exists rest, x = ("address." ++ rest)%string.
Proof.
  unfold validateAddress. rewrite !in_app_iff.
  intros [H | [H | [H | [H | H]]]]; apply v_required_path in H; subst x; eauto.
Qed.

Lemma validateHoursFrom_path (x : string) (k : ValidatorKind) (i : nat)
    (l : list OpeningHours) :
  In (x, k) (validateHoursFrom i l) ->
  exists rest, x = ("openingHours." ++ rest)%string.
Proof.
  revert i. induction l as [|h l IH]; intros i; simpl; [easy |].
  rewrite in_app_iff. intros [H | H]; [| now apply IH in H].
  unfold validateOpeningHours, index_path in H. rewrite !in_app_iff in H.
  destruct H as [H | [H | [H | [H | H]]]];
    (apply v_number_path in H || apply v_required_path in H
     || apply v_match_path in H);
    subst x; eexists; simpl; reflexivity.
Qed.

Lemma email_error_validate (k : ValidatorKind) (p : Pharmacy) :
  In ("email", k) (validate p) -> In ("email", k) (v_match emailRegExp "email" (email p)).
Proof.
  unfold validate. rewrite !in_app_iff.
  intros [H | [H | [H | [H | [H | H]]]]]; try exact H.
  - apply v_required_path in H. discriminate.
  - destruct (address p) as [a|].
    + apply validateAddress_path in H as (rest & H). discriminate.
    + destruct H as [[= ]| []].
  - apply v_required_path in H. discriminate.
  - apply v_required_path in H. discriminate.
  - apply validateHoursFrom_path in H as (rest & H). discriminate.
Qed.

Lemma email_error_validateUpdate (k : ValidatorKind) (f : Fields) :
  In ("email", k) (validateUpdate f) ->
  In ("email", k) (v_match emailRegExp "email" (f_email f)).
Proof.
  unfold validateUpdate. rewrite !in_app_iff.
  intros [H | [H | [H | [H | [H | H]]]]]; try exact H.
  - destruct (f_name f); [| easy]. apply v_required_path in H. discriminate.
  - destruct (f_address f) as [a|]; [| easy].
    apply validateAddress_path in H as (rest & H). discriminate.
  - destruct (f_phoneNumber f); [| easy]. apply v_required_path in H. discriminate.
  - destruct (f_licenseNumber f); [| easy]. apply v_required_path in H. discriminate.
  - destruct (f_openingHours f); [| easy].
    apply validateHoursFrom_path in H as (rest & H). discriminate.
Qed.

Lemma not_email_shape_empty : ~ hasEmailShape "".
Proof.
  intros (before & a & b & c & after & H & _). simpl in H.
  symmetry in H. apply app_eq_nil in H as [_ H]. apply app_eq_nil in H as [_ H].
  discriminate.
Qed.

(** C8, as stated, fails on the empty value: Mongoose's [match]
    validator lets the empty string through.  A create request with
    [email] empty is answered 201, and the empty string does not hold
    text@text.text. *)
Lemma C8_counterexample :
  exists p,
    post 1%N 1000 (with_email (Some "") acme) [] = (mkResponse 201 (json_doc p), [p])
    /\ email p = Some ""
    /\ ~ hasEmailShape "".
Proof.
  eexists. split; [reflexivity |]. split; [reflexivity |].
  exact not_email_shape_empty.
Qed.

(** C8, amended.  The [email] of a payload is trimmed and put in lower
    case, and it is accepted exactly when the result is empty or holds
    text@text.text: a create request, and an update request on a stored
    id, whose payload holds [email] is answered with the validation
    error exactly when the value is not accepted or the rest of the
    payload fails validation, and on success the record holds the value
    in lower case.  A payload without [email] gets no error on [email].
    "a@b.co" is accepted and "not-an-email" is not. *)
Theorem C8_email_validation :
  (forall oid now body coll e,
     f_email body = Some e ->
     ((exists errs, post oid now body coll = (validationFailed errs, coll))
      <-> (~ emailAccepted e
           \/ exists errs,
                post oid now (with_email None body) coll = (validationFailed errs, coll)))
     /\ (forall p coll',
           post oid now body coll = (mkResponse 201 (json_doc p), coll') ->
           email p = Some (Js.toLowerCase (Js.trim e))))
  /\ (forall now id body coll old e,
        wellFormed coll -> stored id coll old -> f_email body = Some e ->
        ((exists errs, put now id body coll = (validationFailed errs, coll))
         <-> (~ emailAccepted e
              \/ exists errs,
                   put now id (with_email None body) coll = (validationFailed errs, coll)))
        /\ (forall p coll',
              put now id body coll = (res_json (json_doc p), coll') ->
              email p = Some (Js.toLowerCase (Js.trim e))))
  /\ (forall oid now body coll errs k,
        f_email body = None ->
        post oid now body coll = (validationFailed errs, coll) ->
        ~ In ("email", k) errs)
  /\ (forall now id body coll errs k,
        f_email body = None ->
        put now id body coll = (validationFailed errs, coll) ->
        ~ In ("email", k) errs)
  /\ emailAccepted "a@b.co"
  /\ ~ emailAccepted "not-an-email".
Proof.
  split; [| split; [| split; [| split; [| split]]]].
  - intros oid now body coll e He. split.
    + rewrite !post_rejects, validate_new_email, He.
      now rewrite v_match_email_rejects.
    + intros p coll'. rewrite post_cases. cbv zeta.
      destruct (validate _); [| discriminate].
      destruct (duplicateKey _ _); [discriminate |].
      intros [= <- _]. simpl. now rewrite He.
  - intros now id body coll old e Hwf Hst He.
    pose proof (wf_ids _ Hwf) as Hnd. split.
    + rewrite !(put_rejects now id _ coll old Hnd Hst), validateUpdate_email, He.
      now rewrite v_match_email_rejects.
    + apply (stored_findOne _ _ _ Hnd) in Hst as [Hc Hf].
      intros p coll'. rewrite put_cases, Hc, Hf. cbv zeta.
      destruct (validateUpdate _); [| discriminate].
      destruct (keyTaken _ _ _); [discriminate |].
      intros [= <- _]. simpl. now rewrite He.
  - intros oid now body coll errs k He. rewrite post_cases. cbv zeta.
    destruct (validate _) as [|x l] eqn:Hv.
    + destruct (duplicateKey _ _); discriminate.
    + intros [= <-] Hin. rewrite <- Hv in Hin.
      apply email_error_validate in Hin. simpl in Hin. now rewrite He in Hin.
  - intros now id body coll errs k He. rewrite put_cases.
    destruct (castObjectId id) as [e | oid]; [discriminate |].
    destruct (findOne oid coll) as [old|]; [| discriminate]. cbv zeta.
    destruct (validateUpdate _) as [|x l] eqn:Hv.
    + destruct (keyTaken _ _ _); discriminate.
    + intros [= <-] Hin. rewrite <- Hv in Hin.
      apply email_error_validateUpdate in Hin. simpl in Hin. now rewrite He in Hin.
  - apply email_checkMatch. reflexivity.
  - intros H. apply email_checkMatch in H. discriminate H.
Qed.

Lemma C8_witness :
  (exists errs,
     post 1%N 1000 (with_email (Some "not-an-email") acme) []
     = (validationFailed errs, []))
  /\ email acme_doc = None
  /\ forall p coll',
       post 1%N 1000 (with_email (Some " A@B.co ") acme) []
       = (mkResponse 201 (json_doc p), coll') ->
       email p = Some "a@b.co".
Proof.
  destruct C8_email_validation as (Hpost & _ & _ & _ & _ & Hbad).
  destruct (Hpost 1%N 1000%Z (with_email (Some "not-an-email") acme) []
              "not-an-email" eq_refl) as [Hrej _].
  destruct (Hpost 1%N 1000%Z (with_email (Some " A@B.co ") acme) []
              " A@B.co " eq_refl) as [_ Hlow].
  split; [apply Hrej; left; exact Hbad |].
  split; [reflexivity | exact Hlow].
Defined.

(* ================================================================== *)
(** * The handlers keep the invariant of the collection *)
(* ================================================================== *)

Lemma NoDup_snoc {A : Type} (l : list A) (a : A) :
  NoDup l -> ~ In a l -> NoDup (l ++ [a]).
Proof.
  intros Hnd Hnotin. apply (Permutation_NoDup (l := a :: l)).
  - apply Permutation_cons_append.
  - now constructor.
Qed.

Lemma set_trim_idem (v : option string) : set_trim (set_trim v) = set_trim v.
Proof. destruct v as [s|]; simpl; [now rewrite trim_idem | reflexivity]. Qed.

Lemma updateOne_Forall (P : Pharmacy -> Prop) (oid : ObjectId)
    (f : Pharmacy -> Pharmacy) (coll : Collection) :
  Forall P coll -> (forall d, P d -> P (f d)) -> Forall P (updateOne oid f coll).
Proof.
  intros H Hf. induction H as [|d coll Hd Hcoll IH]; simpl; [constructor |].
  destruct (N.eqb (_id d) oid); constructor; auto.
Qed.

(** Rewriting a record keeps the licenses distinct when the license
    stays, or is new to the collection. *)
Lemma updateOne_licenses (oid : ObjectId) (p old : Pharmacy) (coll : Collection) :
  NoDup (map licenseNumber coll) ->
  findOne oid coll = Some old ->
  licenseNumber p = licenseNumber old
  \/ ~ In (licenseNumber p) (map licenseNumber coll) ->
  NoDup (map licenseNumber (updateOne oid (fun _ => p) coll)).
Proof.
  unfold findOne. induction coll as [|d coll IH]; simpl; [constructor |].
  intros Hnd Hf Hp. inversion Hnd as [|? ? Hd Hnd']; subst.
  destruct (N.eqb (_id d) oid) eqn:E; simpl.
  - injection Hf as ->. constructor; [| exact Hnd'].
    destruct Hp as [-> | Hp]; [exact Hd | tauto].
  - assert (Hin : In (licenseNumber old) (map licenseNumber coll)).
    { apply find_some in Hf as [Hin _]. now apply in_map. }
    constructor.
    + intros Hbad. apply in_map_iff in Hbad as (x & Hx & Hxin).
      apply updateOne_In in Hxin as [Hxin | (o & _ & ->)].
      * apply Hd. rewrite <- Hx. now apply in_map.
      * destruct Hp as [Hp | Hp].
        -- apply Hd. rewrite <- Hx, Hp. exact Hin.
        -- apply Hp. left. now symmetry.
    + apply IH; [exact Hnd' | exact Hf |].
      destruct Hp as [Hp | Hp]; [now left | right; tauto].
Qed.

Lemma post_wellFormed (oid : ObjectId) (now : Date) (body : Fields) (coll : Collection) :
  wellFormed coll -> wellFormed (snd (post oid now body coll)).
Proof.
  intros Hwf. rewrite post_cases. cbv zeta.
  destruct (validate _) eqn:Hv; [| exact Hwf].
  destruct (duplicateKey _ _) eqn:Hd; [exact Hwf |].
  apply duplicateKey_false in Hd as [Hid Hlic]. destruct Hwf as [Hids Hlics Hdocs].
  simpl snd. split.
  - rewrite map_app. now apply NoDup_snoc.
  - rewrite map_app. now apply NoDup_snoc.
  - apply Forall_app. split; [exact Hdocs |]. constructor; [| constructor].
    split; [exact Hv | apply set_trim_idem].
Qed.

Lemma put_wellFormed (now : Date) (id : string) (body : Fields) (coll : Collection) :
  wellFormed coll -> wellFormed (snd (put now id body coll)).
Proof.
  intros Hwf. rewrite put_cases.
  destruct (castObjectId id) as [e | oid]; [exact Hwf |].
  destruct (findOne oid coll) as [old|] eqn:Hf; [| exact Hwf]. cbv zeta.
  destruct (validateUpdate _) eqn:Hv; [| exact Hwf].
  destruct (keyTaken _ _ _) eqn:Hk; [exact Hwf |].
  pose proof (findOne_In _ _ _ Hf) as [Hin Hid].
  pose proof (wellFormed_In _ _ Hwf Hin) as [Hvo Hto].
  destruct Hwf as [Hids Hlics Hdocs]. simpl snd.
  set (p := set_updatedAt now (applySet (castFields body) old)) in *.
  split.
  - rewrite updateOne_ids; [exact Hids |]. intros d _. exact Hid.
  - apply updateOne_licenses with (old := old); [exact Hlics | exact Hf |].
    unfold keyTaken in Hk. apply andb_false_iff in Hk as [Hk | Hk].
    + left. apply negb_false_iff, eqb_field_eq in Hk. now symmetry.
    + right. rewrite <- existsb_license. congruence.
  - apply Forall_forall. intros d Hd.
    apply updateOne_In in Hd as [Hd | (o & _ & ->)].
    + rewrite Forall_forall in Hdocs. now apply Hdocs.
    + split.
      * unfold p. rewrite validate_set_updatedAt. now apply validate_applySet.
      * simpl. destruct (f_licenseNumber body); simpl; [| exact Hto].
        now rewrite trim_idem.
Qed.

Lemma delete_wellFormed (now : Date) (id : string) (coll : Collection) :
  wellFormed coll -> wellFormed (snd (delete now id coll)).
Proof.
  intros Hwf. rewrite delete_cases.
  destruct (castObjectId id) as [e | oid]; [exact Hwf |].
  destruct (findOne oid coll) as [p|] eqn:Hf; [| exact Hwf].
  destruct (validate p); [| exact Hwf].
  destruct (isActive p); [| exact Hwf].
  destruct Hwf as [Hids Hlics Hdocs]. simpl snd. split.
  - rewrite updateOne_ids; [exact Hids |]. intros d Hd. exact Hd.
  - now rewrite updateOne_licenses_same.
  - apply updateOne_Forall; [exact Hdocs |]. intros d Hd. exact Hd.
Qed.

(* ================================================================== *)
(** * The scenario of the specification, end to end *)
(* ================================================================== *)

(** Create with the license LIC-1: 201.  Create again with the same
    license: 400.  The list holds the first record.  Delete it: 200 with
    the message.  Get it by id: 404, and the record is still stored. *)
Example end_to_end :
  let (r1, c1) := post 1%N 1000 acme [] in
  let (r2, c2) := post 2%N 1100 acme c1 in
  let r3 := get_list refuseOthers (mkQuery None None) c2 in
  let (r4, c4) := delete 1500 id1 c2 in
  let r5 := get_by_id id1 c4 in
  r1 = mkResponse 201 (json_doc acme_doc)
  /\ r2 = duplicateLicense
  /\ r3 = res_json (json_docs [acme_doc])
  /\ r4 = markedInactive
  /\ r5 = notFound
  /\ c4 = [acme_inactive].
Proof. vm_compute. repeat split. Qed.

(* ================================================================== *)
(** * Sequences of requests *)
(* ================================================================== *)

Import Sessions.

Lemma handle_wellFormed (r : Request) (coll : Collection) :
  wellFormed coll -> wellFormed (snd (handle r coll)).
Proof.
  destruct r; simpl.
  - apply post_wellFormed.
  - apply put_wellFormed.
  - apply delete_wellFormed.
Qed.

Lemma after_wellFormed (rs : list Request) (coll : Collection) :
  wellFormed coll -> wellFormed (after rs coll).
Proof.
  unfold after. revert coll. induction rs as [|r rs IH]; intros coll Hwf; simpl.
  - exact Hwf.
  - apply IH. now apply handle_wellFormed.
Qed.

(** X1.  Whatever requests are served, starting from the empty
    collection, no two records have the same [_id], no two have the same
    [licenseNumber], and every record passes the validation of the
    schema. *)
Theorem X1_store_invariant (rs : list Request) :
  NoDup (map _id (after rs []))
  /\ NoDup (map licenseNumber (after rs []))
  /\ Forall (fun p => validate p = []) (after rs []).
Proof.
  destruct (after_wellFormed rs [] wellFormed_nil) as [Hids Hlics Hdocs].
  repeat split; [exact Hids | exact Hlics |].
  eapply Forall_impl; [| exact Hdocs]. now intros p [Hv _].
Qed.

Lemma updateOne_const_map {B : Type} (g : Pharmacy -> B) (oid : ObjectId)
    (p old : Pharmacy) (coll : Collection) :
  findOne oid coll = Some old -> g p = g old ->
  map g (updateOne oid (fun _ => p) coll) = map g coll.
Proof.
  unfold findOne. intros Hf Hg.
  induction coll as [|d coll IH]; simpl in *; [reflexivity |].
  destruct (N.eqb (_id d) oid).
  - injection Hf as ->. simpl. now rewrite Hg.
  - simpl. now rewrite IH.
Qed.

Lemma updateOne_map {B : Type} (g : Pharmacy -> B) (oid : ObjectId)
    (f : Pharmacy -> Pharmacy) (coll : Collection) :
  (forall d, g (f d) = g d) -> map g (updateOne oid f coll) = map g coll.
Proof.
  intros Hg. induction coll as [|d coll IH]; simpl; [reflexivity |].
  destruct (N.eqb (_id d) oid); simpl; [now rewrite Hg | now rewrite IH].
Qed.

(** X2.  No request removes a record, moves it, or changes its [_id] or
    its [createdAt]: the identities of the records after a request are
    those before it, in the same order, followed by that of the record
    that a create has added, if any. *)
Theorem X2_records_persist (r : Request) (coll : Collection) :
  exists added,
    map identity (snd (handle r coll)) = map identity coll ++ added
    /\ (List.length added <= 1)%nat.
Proof.
  destruct r as [oid now body | now id body | now id]; simpl.
  - rewrite post_cases. cbv zeta.
    destruct (validate _); [| exists []; now rewrite app_nil_r; auto].
    destruct (duplicateKey _ _); [exists []; now rewrite app_nil_r; auto |].
    eexists. simpl snd. rewrite map_app. split; [reflexivity |]. simpl. lia.
  - exists []. rewrite app_nil_r. split; [| simpl; lia].
    rewrite put_cases.
    destruct (castObjectId id) as [e | oid]; [reflexivity |].
    destruct (findOne oid coll) as [old|] eqn:Hf; [| reflexivity]. cbv zeta.
    destruct (validateUpdate _); [| reflexivity].
    destruct (keyTaken _ _ _); [reflexivity |]. simpl snd.
    now apply updateOne_const_map with (old := old).
  - exists []. rewrite app_nil_r. split; [| simpl; lia].
    rewrite delete_cases.
    destruct (castObjectId id) as [e | oid]; [reflexivity |].
    destruct (findOne oid coll) as [p|]; [| reflexivity].
    destruct (validate p); [| reflexivity].
    destruct (isActive p); [| reflexivity]. simpl snd.
    now apply updateOne_map.
Qed.

(** X3.  A request that is answered neither 200 nor 201 writes nothing:
    the collection is as it was. *)
Theorem X3_rejected_request_writes_nothing (r : Request) (coll : Collection) :
  status (fst (handle r coll)) <> 200%Z ->
  status (fst (handle r coll)) <> 201%Z ->
  snd (handle r coll) = coll.
Proof.
  destruct r as [oid now body | now id body | now id]; simpl.
  - rewrite post_cases. cbv zeta.
    destruct (validate _); [| reflexivity].
    destruct (duplicateKey _ _); [reflexivity |]. simpl. congruence.
  - rewrite put_cases.
    destruct (castObjectId id) as [e | oid]; [reflexivity |].
    destruct (findOne oid coll) as [old|]; [| reflexivity]. cbv zeta.
    destruct (validateUpdate _); [| reflexivity].
    destruct (keyTaken _ _ _); [reflexivity |]. simpl. congruence.
  - rewrite delete_cases.
    destruct (castObjectId id) as [e | oid]; [reflexivity |].
    destruct (findOne oid coll) as [p|]; [| reflexivity].
    destruct (validate p); [| reflexivity]. simpl. congruence.
Qed.

Lemma X3_witness :
  status (fst (handle (POST 2%N 2000 onlyLicense) coll1)) = 400%Z
  /\ snd (handle (POST 2%N 2000 onlyLicense) coll1) = coll1.
Proof.
  split; [reflexivity |].
  apply (X3_rejected_request_writes_nothing (POST 2%N 2000 onlyLicense) coll1);
    discriminate.
Defined.

(* ================================================================== *)
(** * The list endpoint with wild cards *)
(* ================================================================== *)

Lemma wild_lang (p : list ascii) :
  forallb (fun c => Ascii.eqb c "."%char || negb (isSyntaxCharacter c)) p = true ->
  exists r, parse_ignoreCase p = Some r
            /\ forall l, lang r l <-> Forall2 (fun a b => patternChar a b = true) p l.
Proof.
  induction p as [|c p IH]; simpl.
  - intros _. exists Eps. split; [reflexivity |]. intros l. rewrite lang_eps.
    split; [intros ->; constructor | intros H; now inversion H].
  - rewrite andb_true_iff. intros [Hc Hp].
    destruct (IH Hp) as (r & -> & Hr).
    assert (Hcons : forall cls, (forall x, cls x = patternChar c x) ->
              forall l, lang (Seq (Class cls) r) l
                        <-> Forall2 (fun a b => patternChar a b = true) (c :: p) l).
    { intros cls Hcls l. rewrite lang_seq. split.
      - intros (l1 & l2 & -> & H1 & H2). apply lang_class in H1 as (x & -> & Hx).
        constructor; [now rewrite <- Hcls | now apply Hr].
      - intros H. inversion H as [| ? x ? l' Hx Hl]; subst.
        exists [x], l'. repeat split; [| now apply Hr].
        constructor. now rewrite Hcls. }
    unfold patternChar in Hcons.
    destruct (Ascii.eqb c ".") eqn:E.
    + exists (Seq Dot r). split; [reflexivity |]. now apply Hcons.
    + simpl in Hc. apply negb_true_iff in Hc. rewrite Hc.
      exists (Seq (CharIgnoreCase c) r). split; [reflexivity |]. now apply Hcons.
Qed.

(** The regular expression of a value whose only syntax character is
    the dot looks for the value in the subject, the dot as a wild card. *)
Lemma wild_test (source : string) :
  dotsAndLiterals source = true ->
  exists re, new_ignoreCase source = Some re
             /\ forall subject, test re subject = occursIn source subject.
Proof.
  intros H. destruct (wild_lang _ H) as (r & Hp & Hr).
  unfold new_ignoreCase. rewrite Hp. eexists. split; [reflexivity |].
  intros subject. apply bool_eq_iff.
  unfold occursIn. rewrite test_spec, infix_by_spec. simpl.
  split.
  - intros (before & mid & after & Heq & Hl & _). exists before, mid, after.
    split; [easy | now apply Hr].
  - intros (before & mid & after & Heq & Hl). exists before, mid, after.
    repeat split; try easy. now apply Hr.
Qed.

(** Any other syntax character takes the value out of the modelled
    grammar. *)
Lemma not_wild_parse (p : list ascii) :
  forallb (fun c => Ascii.eqb c "."%char || negb (isSyntaxCharacter c)) p = false ->
  parse_ignoreCase p = None.
Proof.
  induction p as [|c p IH]; simpl; [discriminate |].
  rewrite andb_false_iff. intros [Hc | Hp].
  - apply orb_false_iff in Hc as [Hdot Hsyn]. apply negb_false_iff in Hsyn.
    destruct (parse_ignoreCase p); [| reflexivity]. now rewrite Hdot, Hsyn.
  - now rewrite (IH Hp).
Qed.

(** A value whose only syntax character is the dot compiles, whatever
    the engine, and its regular expression looks for it with the dot as
    a wild card. *)
Lemma compile_wild (other : Engine) (s : string) :
  dotsAndLiterals s = true ->
  exists m, compile other s = Matches m
            /\ forall subject, m subject = occursIn s subject.
Proof.
  intros Hs. destruct (wild_test s Hs) as (re & Hre & Htest).
  unfold compile. rewrite Hre. now exists (test re).
Qed.

Lemma wild_given (v : option string) (s : string) :
  wild v -> given v = Some s -> dotsAndLiterals s = true.
Proof.
  unfold wild, given. destruct v as [x|]; [| discriminate].
  destruct (Js.isEmpty x); [discriminate |]. now intros H [= <-].
Qed.

Lemma wild_not_refused (other : Engine) (v : option string) :
  wild v -> ~ refused other v.
Proof.
  intros Hv (s & Hs & Ht).
  destruct (compile_wild other s (wild_given v s Hv Hs)) as (m & Hm & _).
  congruence.
Qed.

Lemma found_wild (other : Engine) (v : option string) (s subject : string) :
  wild v -> given v = Some s -> found other s subject = occursIn s subject.
Proof.
  intros Hv Hs. unfold found.
  destruct (compile_wild other s (wild_given v s Hv Hs)) as (m & -> & Hm).
  apply Hm.
Qed.

Lemma listedBy_wild (other : Engine) (q : Query) (p : Pharmacy) :
  wild (q_city q) -> wild (q_service q) -> listedBy other q p = listedWild q p.
Proof.
  intros Hc Hs. unfold listedBy, listedWild. f_equal; [f_equal |].
  - destruct (given (q_city q)) as [c|] eqn:E; [| reflexivity].
    destruct (cityOf p); [| reflexivity]. now apply found_wild with (v := q_city q).
  - destruct (given (q_service q)) as [v|] eqn:E; [| reflexivity].
    apply existsb_pointwise. intros x. now apply found_wild with (v := q_service q).
Qed.

(** X4.  With [.] as the only regular expression syntax in the values
    of [city] and [service], the list endpoint answers 200 with the
    active records in which each given value occurs, in [address.city]
    and in an element of [servicesOffered]: a dot stands for any one
    character but the line feed, every other character for itself
    whatever its letter case; both filters must hold when both are
    given, and an empty value is no filter.  The records come in
    ascending order of [name], each as often as it is stored. *)
Theorem X4_list_with_wild_cards (other : Engine) (q : Query) (coll : Collection) :
  wild (q_city q) -> wild (q_service q) ->
  exists l,
    get_list other q coll = res_json (json_docs l)
    /\ Permutation l (filter (listedWild q) coll)
    /\ StronglySorted name_le l
    /\ (forall p, In p l <-> In p coll /\ listedWild q p = true).
Proof.
  intros Hc Hs.
  exists (sort_by_name (filter (listedWild q) coll)).
  split; [| split; [| split]].
  - destruct (get_list_cases other q coll) as [[[Hr | Hr] _] | (_ & _ & ->)].
    + now destruct (wild_not_refused other _ Hc Hr).
    + now destruct (wild_not_refused other _ Hs Hr).
    + now rewrite (filter_ext_in_bool _ _ coll
                     (fun p => listedBy_wild other q p Hc Hs)).
  - apply sort_by_name_perm.
  - apply sort_by_name_sorted.
  - intros p. now rewrite In_sort_by_name, filter_In.
Qed.

Lemma X4_witness :
  exists l,
    get_list refuseOthers (mkQuery (Some "b.St.n") None) coll2
    = res_json (json_docs l)
    /\ l = [acme_doc].
Proof.
  assert (H1 : wild (Some "b.St.n")) by reflexivity.
  assert (H2 : wild None) by exact I.
  destruct (X4_list_with_wild_cards refuseOthers
              (mkQuery (Some "b.St.n") None) coll2 H1 H2)
    as (l & Hl & _).
  exists l. split; [exact Hl |].
  assert (E : res_json (json_docs l) = res_json (json_docs [acme_doc]))
    by (rewrite <- Hl; reflexivity).
  now injection E.
Defined.

(** The engine has no say on a value of the modelled grammar, nor on one
    that starts with a quantifier. *)
Lemma compile_engine_free (e1 e2 : Engine) (s : string) :
  dotsAndLiterals s = true \/ startsWithQuantifier s = true ->
  compile e1 s = compile e2 s.
Proof.
  intros [H | H].
  - destruct (wild_test s H) as (re & Hre & _). unfold compile. now rewrite Hre.
  - unfold compile. destruct (new_ignoreCase s); [reflexivity | now rewrite H].
Qed.

(* ================================================================== *)
(** * One request after another *)
(* ================================================================== *)

Lemma findOne_snoc_new (oid : ObjectId) (coll : Collection) (p : Pharmacy) :
  ~ In oid (map _id coll) -> _id p = oid -> findOne oid (coll ++ [p]) = Some p.
Proof.
  unfold findOne. intros Hnew Hid. induction coll as [|d coll IH]; simpl.
  - now rewrite Hid, N.eqb_refl.
  - destruct (N.eqb (_id d) oid) eqn:E.
    + apply N.eqb_eq in E. exfalso. apply Hnew. now left.
    + apply IH. intros H. apply Hnew. now right.
Qed.

(** What a 201 tells. *)
Lemma post_201 (oid : ObjectId) (now : Date) (body : Fields) (coll coll' : Collection)
    (p : Pharmacy) :
  post oid now body coll = (mkResponse 201 (json_doc p), coll') ->
  p = set_timestamps now (new oid (with_isActive None body))
  /\ coll' = coll ++ [p]
  /\ validate p = []
  /\ duplicateKey coll p = false.
Proof.
  rewrite post_cases. cbv zeta.
  destruct (validate _) eqn:Hv; [| discriminate].
  destruct (duplicateKey _ _) eqn:Hd; [discriminate |].
  intros [= <- <-]. repeat split; assumption.
Qed.

(** X5.  A record that a create has answered with 201 is read back by
    its id: get-by-id answers 200 with the same record. *)
Theorem X5_create_then_get
    (oid : ObjectId) (now : Date) (body : Fields) (coll coll' : Collection)
    (p : Pharmacy) (id : string) :
  post oid now body coll = (mkResponse 201 (json_doc p), coll') ->
  castObjectId id = inr oid ->
  get_by_id id coll' = res_json (json_doc p).
Proof.
  intros Hpost Hid. apply post_201 in Hpost as (Hp & -> & _ & Hd).
  apply duplicateKey_false in Hd as [Hnew _].
  rewrite get_by_id_cases, Hid.
  rewrite (findOne_snoc_new oid coll p); [| now rewrite Hp in Hnew | now rewrite Hp].
  now rewrite Hp.
Qed.

Lemma X5_witness : get_by_id id2 (coll1 ++ [zenith_doc]) = res_json (json_doc zenith_doc).
Proof.
  apply (X5_create_then_get 2%N 1000 zenith coll1 (coll1 ++ [zenith_doc])
           zenith_doc id2); reflexivity.
Defined.

(** X6.  After a create answered with 201, the list without filters
    returns the new record, and every record that a list request
    returned before is returned by the same request after, whatever the
    values of its filters. *)
Theorem X6_create_then_list
    (oid : ObjectId) (now : Date) (body : Fields) (coll coll' : Collection)
    (p : Pharmacy) :
  post oid now body coll = (mkResponse 201 (json_doc p), coll') ->
  (forall other, returned (get_list other (mkQuery None None) coll') p)
  /\ (forall other q d,
        returned (get_list other q coll) d -> returned (get_list other q coll') d).
Proof.
  intros Hpost. apply post_201 in Hpost as (Hp & -> & _ & _). split.
  - intros other. apply returned_spec.
    split; [intros (s & H & _); discriminate |].
    split; [intros (s & H & _); discriminate |].
    split; [apply in_or_app; right; now left | now rewrite Hp].
  - intros other q d Hd. apply returned_spec in Hd as (Hc & Hs & Hin & Hl).
    apply returned_spec. repeat split; try assumption.
    apply in_or_app. now left.
Qed.

Lemma X6_witness :
  returned (get_list refuseOthers (mkQuery None None) (coll1 ++ [zenith_doc]))
    zenith_doc
  /\ returned (get_list refuseOthers (mkQuery (Some "bos") None)
                (coll1 ++ [zenith_doc])) acme_doc.
Proof.
  destruct (X6_create_then_list 2%N 1000 zenith coll1 (coll1 ++ [zenith_doc])
              zenith_doc eq_refl) as [Hnew Hkept].
  split; [apply Hnew |].
  apply Hkept. simpl. now left.
Defined.

(** X7.  Soft delete is idempotent: a delete that has been answered
    200, asked again for the same id at any later time, is answered 200
    again and leaves the collection as the first left it. *)
Theorem X7_delete_twice (now now' : Date) (id : string) (coll : Collection) :
  fst (delete now id coll) = markedInactive ->
  delete now' id (snd (delete now id coll)) = (markedInactive, snd (delete now id coll)).
Proof.
  intros H.
  assert (Hfirst : exists oid p,
             castObjectId id = inr oid /\ findOne oid coll = Some p
             /\ validate p = []
             /\ snd (delete now id coll)
                = if isActive p then
                    updateOne (_id p)
                      (fun d => set_updatedAt now (set_isActive false d)) coll
                  else coll).
  { rewrite delete_cases in *.
    destruct (castObjectId id) as [e | oid]; [discriminate |].
    destruct (findOne oid coll) as [p|] eqn:Hf; [| discriminate].
    destruct (validate p) eqn:Hv; [| discriminate].
    exists oid, p. split; [reflexivity |]. split; [exact Hf |].
    split; [exact Hv | reflexivity]. }
  destruct Hfirst as (oid & p & Hc & Hf & Hv & ->).
  pose proof (findOne_In _ _ _ Hf) as [_ Hid].
  rewrite delete_cases, Hc.
  destruct (isActive p) eqn:A.
  - rewrite Hid.
    rewrite (updateOne_findOne oid
               (fun d => set_updatedAt now (set_isActive false d)) coll p
               (fun d Hd => Hd) Hf).
    cbv beta. rewrite validate_set_updatedAt, validate_set_isActive, Hv.
    reflexivity.
  - now rewrite Hf, Hv, A.
Qed.

Lemma X7_witness :
  delete 1700 id1 (snd (delete 1500 id1 coll1)) = (markedInactive, [acme_inactive]).
Proof.
  exact (X7_delete_twice 1500 1700 id1 coll1 eq_refl).
Defined.

(** X8.  After a soft delete, no list request returns a record with the
    deleted id, whatever the values of its filters. *)
Theorem X8_delete_then_list
    (now : Date) (id : string) (coll : Collection) (p : Pharmacy)
    (other : Engine) (q : Query) (d : Pharmacy) :
  wellFormed coll -> stored id coll p ->
  returned (get_list other q (snd (delete now id coll))) d ->
  _id d <> _id p.
Proof.
  intros Hwf Hst Hd Heq.
  pose proof (wf_ids _ Hwf) as Hnd.
  apply (stored_findOne _ _ _ Hnd) in Hst as [Hc Hf].
  pose proof (findOne_In _ _ _ Hf) as [Hin _].
  destruct (wellFormed_In coll p Hwf Hin) as [Hv _].
  apply returned_spec in Hd as (_ & _ & Hd & Hs). apply listedBy_active in Hs.
  rewrite delete_cases, Hc, Hf, Hv in Hd. simpl snd in Hd.
  destruct (isActive p) eqn:A.
  - set (g := fun x => set_updatedAt now (set_isActive false x)) in *.
    assert (Hnd' : NoDup (map _id (updateOne (_id p) g coll))).
    { rewrite updateOne_ids; [exact Hnd | intros x Hx; exact Hx]. }
    assert (Hgp : In (g p) (updateOne (_id p) g coll)).
    { apply findOne_In with (oid := _id p).
      now apply (updateOne_findOne (_id p) g coll p (fun x Hx => Hx)). }
    assert (d = g p) by (apply (NoDup_map_eq _id _ d (g p) Hnd' Hd Hgp); exact Heq).
    subst d. discriminate Hs.
  - assert (d = p) by (apply (NoDup_map_eq _id coll d p Hnd Hd Hin); exact Heq).
    subst d. congruence.
Qed.

Lemma X8_witness :
  get_list refuseOthers (mkQuery None None) (snd (delete 1500 id1 coll2))
  = res_json (json_docs [zenith_doc])
  /\ _id zenith_doc <> _id acme_doc.
Proof.
  assert (Hwf : wellFormed coll2).
  { split.
    - simpl. repeat constructor; simpl; intuition discriminate.
    - simpl. repeat constructor; simpl; intuition discriminate.
    - repeat constructor. }
  assert (Hst : stored id1 coll2 acme_doc).
  { exists 1%N. split; [reflexivity |]. split; [right; now left | reflexivity]. }
  split; [reflexivity |].
  apply (X8_delete_then_list 1500 id1 coll2 acme_doc refuseOthers
           (mkQuery None None) zenith_doc Hwf Hst).
  simpl. now left.
Defined.

(** X9.  After an update answered with 200, get-by-id answers 200 with
    the updated record when the record is active, and 404 when the
    update has set [isActive] to false, or has left it false. *)
Theorem X9_update_then_get
    (now : Date) (id : string) (body : Fields) (coll coll' : Collection)
    (p : Pharmacy) :
  put now id body coll = (res_json (json_doc p), coll') ->
  get_by_id id coll' = (if isActive p then res_json (json_doc p) else notFound).
Proof.
  rewrite put_cases, get_by_id_cases.
  destruct (castObjectId id) as [e | oid]; [discriminate |].
  destruct (findOne oid coll) as [old|] eqn:Hf; [| discriminate]. cbv zeta.
  set (q := set_updatedAt now (applySet (castFields body) old)).
  destruct (validateUpdate _); [| discriminate].
  destruct (keyTaken _ _ _); [discriminate |].
  intros [= <- <-].
  pose proof (findOne_In _ _ _ Hf) as [_ Hid].
  now rewrite (updateOne_findOne oid (fun _ => q) coll old (fun _ _ => Hid) Hf).
Qed.

Lemma X9_witness :
  exists p coll',
    put 1500 id1 (with_isActive (Some false) noFields) coll1
    = (res_json (json_doc p), coll')
    /\ get_by_id id1 coll' = notFound.
Proof.
  eexists. eexists. split; [reflexivity |].
  exact (X9_update_then_get 1500 id1 (with_isActive (Some false) noFields)
           coll1 _ _ eq_refl).
Defined.

(* ================================================================== *)
(** * Addresses, blank values, the license on update *)
(* ================================================================== *)

Lemma missingOfAddress_reported (a : Address) (path : string) :
  In path (missingOfAddress a) ->
  In (path, required) (validateAddress "address." (castAddress a)).
Proof.
  unfold missingOfAddress, validateAddress. simpl. rewrite !in_app_iff.
  intros [H | [H | [H | H]]].
  - left. destruct (street a); simpl in *; [easy |].
    destruct H as [<- | []]. now left.
  - right; left. destruct (city a); simpl in *; [easy |].
    destruct H as [<- | []]. now left.
  - right; right; left. destruct (state a); simpl in *; [easy |].
    destruct H as [<- | []]. now left.
  - right; right; right; left. destruct (zipCode a); simpl in *; [easy |].
    destruct H as [<- | []]. now left.
Qed.

(** X10.  An update whose payload holds an [address] object that lacks
    [street], [city], [state] or [zipCode] is answered 400 with a
    [required] error on each missing sub-field, and nothing is written,
    whatever the address of the stored record: the object is validated
    on its own, not merged with the stored address. *)
Theorem X10_update_partial_address
    (now : Date) (id : string) (body : Fields) (coll : Collection)
    (old : Pharmacy) (a : Address) :
  NoDup (map _id coll) -> stored id coll old ->
  f_address body = Some a -> missingOfAddress a <> [] ->
  exists errs,
    put now id body coll = (validationFailed errs, coll)
    /\ forall path, In path (missingOfAddress a) -> In (path, required) errs.
Proof.
  intros Hnd Hst Ha Hm.
  apply (stored_findOne _ _ _ Hnd) in Hst as [Hc Hf].
  assert (Hrep : forall path, In path (missingOfAddress a) ->
                   In (path, required) (validateUpdate (castFields body))).
  { intros path Hp. unfold validateUpdate. simpl. rewrite Ha. simpl.
    apply in_or_app. right. apply in_or_app. left.
    now apply missingOfAddress_reported. }
  rewrite put_cases, Hc, Hf. cbv zeta.
  destruct (validateUpdate (castFields body)) as [|e errs].
  - destruct (missingOfAddress a) as [|path l]; [congruence |].
    destruct (Hrep path (or_introl eq_refl)).
  - exists (e :: errs). split; [reflexivity | exact Hrep].
Qed.

Lemma X10_witness :
  exists errs,
    put 1500 id1 (with_address (Some cityOnly) noFields) coll1
    = (validationFailed errs, coll1)
    /\ In ("address.street", required) errs.
Proof.
  assert (Hnd : NoDup (map _id coll1)) by apply (wf_ids _ wellFormed_coll1).
  assert (Hst : stored id1 coll1 acme_doc).
  { exists 1%N. split; [reflexivity |]. split; [now left | reflexivity]. }
  assert (Hm : missingOfAddress cityOnly <> []) by discriminate.
  destruct (X10_update_partial_address 1500 id1
              (with_address (Some cityOnly) noFields) coll1 acme_doc cityOnly
              Hnd Hst eq_refl Hm) as (errs & Hput & Hrep).
  exists errs. split; [exact Hput |]. apply Hrep. now left.
Defined.

Lemma v_required_blank (path : string) (v : option string) :
  isBlank v = true -> v_required path (set_trim v) = [(path, required)].
Proof.
  unfold isBlank, v_required, checkRequired, set_trim.
  destruct v as [s|]; [| discriminate]. simpl. now intros ->.
Qed.

Lemma blank_reported (oid : ObjectId) (now : Date) (body : Fields) (path : string) :
  In path (blank body) ->
  In (path, required) (validate (set_timestamps now (new oid (with_isActive None body)))).
Proof.
  unfold blank, validate. simpl. rewrite !in_app_iff.
  intros [H | [H | [H | H]]].
  - left. destruct (isBlank (f_name body)) eqn:E; [| easy].
    destruct H as [<- | []]. rewrite (v_required_blank _ _ E). now left.
  - right; left. destruct (f_address body) as [a|]; [| easy]. simpl.
    unfold blankOfAddress in H. unfold validateAddress. simpl.
    rewrite !in_app_iff in *.
    destruct H as [H | [H | [H | [H | H]]]].
    + left. destruct (isBlank (street a)) eqn:E; [| easy].
      destruct H as [<- | []]. rewrite (v_required_blank _ _ E). now left.
    + right; left. destruct (isBlank (city a)) eqn:E; [| easy].
      destruct H as [<- | []]. rewrite (v_required_blank _ _ E). now left.
    + right; right; left. destruct (isBlank (state a)) eqn:E; [| easy].
      destruct H as [<- | []]. rewrite (v_required_blank _ _ E). now left.
    + right; right; right; left. destruct (isBlank (zipCode a)) eqn:E; [| easy].
      destruct H as [<- | []]. rewrite (v_required_blank _ _ E). now left.
    + right; right; right; right. destruct (country a) as [c|]; [| easy].
      simpl in H. destruct (Js.isEmpty (Js.trim c)) eqn:E; [| easy].
      destruct H as [<- | []]. unfold v_required, checkRequired.
      rewrite E. now left.
  - right; right; left. destruct (isBlank (f_phoneNumber body)) eqn:E; [| easy].
    destruct H as [<- | []]. rewrite (v_required_blank _ _ E). now left.
  - right; right; right; right; left.
    destruct (isBlank (f_licenseNumber body)) eqn:E; [| easy].
    destruct H as [<- | []]. rewrite (v_required_blank _ _ E). now left.
Qed.

(** X11.  A required string that is given with nothing but white space
    counts as missing: the value is trimmed before it is validated, so a
    create request with a blank [name], [phoneNumber], [licenseNumber]
    or sub-field of [address] ([country] among them) is answered 400
    with a [required] error on each such path, and nothing is
    inserted. *)
Theorem X11_create_blank_required_field
    (oid : ObjectId) (now : Date) (body : Fields) (coll : Collection) :
  blank body <> [] ->
  exists errs,
    post oid now body coll = (validationFailed errs, coll)
    /\ forall path, In path (blank body) -> In (path, required) errs.
Proof.
  intros Hb.
  pose proof (blank_reported oid now body) as Hrep.
  rewrite post_cases. cbv zeta.
  destruct (validate (set_timestamps now (new oid (with_isActive None body))))
    as [|e errs].
  - destruct (blank body) as [|path l]; [congruence |].
    destruct (Hrep path (or_introl eq_refl)).
  - exists (e :: errs). split; [reflexivity | exact Hrep].
Qed.

Lemma X11_witness :
  exists errs,
    post 2%N 2000 (with_name (Some "   ") zenith) coll1 = (validationFailed errs, coll1)
    /\ In ("name", required) errs.
Proof.
  assert (Hb : blank (with_name (Some "   ") zenith) <> []) by discriminate.
  destruct (X11_create_blank_required_field 2%N 2000
              (with_name (Some "   ") zenith) coll1 Hb) as (errs & Hpost & Hrep).
  exists errs. split; [exact Hpost |]. apply Hrep. now left.
Defined.

(** X12.  An update that holds [address] replaces the address as a
    whole: what the payload does not give is not kept from the stored
    record.  After a 200, [country] is the trimmed value of the payload,
    or "USA" when the payload has none, and the coordinates are those of
    the payload, absent when the payload has none. *)
Theorem X12_update_replaces_address
    (now : Date) (id : string) (body : Fields) (coll coll' : Collection)
    (p : Pharmacy) (a : Address) :
  put now id body coll = (res_json (json_doc p), coll') ->
  f_address body = Some a ->
  exists a',
    address p = Some a'
    /\ country a' = Some (match country a with Some c => Js.trim c | None => "USA" end)
    /\ latitude a' = latitude a
    /\ longitude a' = longitude a.
Proof.
  rewrite put_cases.
  destruct (castObjectId id) as [e | oid]; [discriminate |].
  destruct (findOne oid coll) as [old|]; [| discriminate]. cbv zeta.
  destruct (validateUpdate _); [| discriminate].
  destruct (keyTaken _ _ _); [discriminate |].
  intros [= <- _] Ha. simpl. rewrite Ha. simpl.
  exists (castAddress a). split; [reflexivity |].
  simpl. destruct (country a); repeat split.
Qed.

Lemma X12_witness :
  exists p coll' a',
    put 1500 id2 (with_address (Some boston) noFields) coll2
    = (res_json (json_doc p), coll')
    /\ address p = Some a'
    /\ country a' = Some "USA".
Proof.
  eexists. eexists.
  destruct (X12_update_replaces_address 1500 id2
              (with_address (Some boston) noFields) coll2 _ _ boston
              eq_refl eq_refl) as (a' & Ha & Hc & _).
  exists a'. split; [reflexivity |]. split; [exact Ha | exact Hc].
Defined.

(** X13.  An update that leaves the license number as it is, because
    the payload has none or repeats the one of the record, is never
    answered with the duplicate key error. *)
Theorem X13_update_same_license
    (now : Date) (id : string) (body : Fields) (coll : Collection) (old : Pharmacy) :
  NoDup (map _id coll) -> stored id coll old ->
  f_licenseNumber body = None
  \/ set_trim (f_licenseNumber body) = licenseNumber old ->
  fst (put now id body coll) <> duplicateOnUpdate.
Proof.
  intros Hnd Hst Hl.
  apply (stored_findOne _ _ _ Hnd) in Hst as [Hc Hf].
  rewrite put_cases, Hc, Hf. cbv zeta.
  destruct (validateUpdate _); [| discriminate].
  rewrite keyTaken_same_license; [discriminate |].
  simpl. destruct Hl as [-> | Hl]; [reflexivity |].
  destruct (f_licenseNumber body); [exact Hl | reflexivity].
Qed.

Lemma X13_witness :
  fst (put 1500 id1 (with_name (Some "Acme 2") acme) coll2) <> duplicateOnUpdate.
Proof.
  assert (Hnd : NoDup (map _id coll2)).
  { simpl. repeat constructor; simpl; intuition discriminate. }
  assert (Hst : stored id1 coll2 acme_doc).
  { exists 1%N. split; [reflexivity |]. split; [right; now left | reflexivity]. }
  apply (X13_update_same_license 1500 id1 (with_name (Some "Acme 2") acme)
           coll2 acme_doc Hnd Hst).
  right. reflexivity.
Defined.

(* ================================================================== *)
(** * Timestamps *)
(* ================================================================== *)

Lemma timestamped_later (t t' : Date) (p : Pharmacy) :
  (t <= t')%Z -> timestamped t p -> timestamped t' p.
Proof.
  intros Ht (c & u & Hc & Hu & Hcu & Hut). exists c, u. repeat split; try easy. lia.
Qed.

Lemma timestamped_touch (t now : Date) (p q : Pharmacy) :
  (t <= now)%Z -> timestamped t p -> createdAt q = createdAt p ->
  timestamped now (set_updatedAt now q).
Proof.
  intros Ht (c & u & Hc & Hu & Hcu & Hut) Hq. exists c, now. simpl.
  repeat split; try lia. congruence.
Qed.

Lemma handle_timestamped (t : Date) (r : Request) (coll : Collection) :
  (t <= time_of r)%Z -> Forall (timestamped t) coll ->
  Forall (timestamped (time_of r)) (snd (handle r coll)).
Proof.
  intros Ht Hall.
  assert (Hlater : Forall (timestamped (time_of r)) coll).
  { eapply Forall_impl; [| exact Hall]. intros p. now apply timestamped_later. }
  destruct r as [oid now body | now id body | now id]; simpl in *.
  - rewrite post_cases. cbv zeta.
    destruct (validate _); [| exact Hlater].
    destruct (duplicateKey _ _); [exact Hlater |]. simpl snd.
    apply Forall_app. split; [exact Hlater |]. constructor; [| constructor].
    exists now, now. simpl. repeat split; lia.
  - rewrite put_cases.
    destruct (castObjectId id) as [e | oid]; [exact Hlater |].
    destruct (findOne oid coll) as [old|] eqn:Hf; [| exact Hlater]. cbv zeta.
    destruct (validateUpdate _); [| exact Hlater].
    destruct (keyTaken _ _ _); [exact Hlater |]. simpl snd.
    apply Forall_forall. intros d Hd.
    apply updateOne_In in Hd as [Hd | (o & Ho & ->)].
    + rewrite Forall_forall in Hlater. now apply Hlater.
    + apply findOne_In in Hf as [Hin _]. rewrite Forall_forall in Hall.
      apply (timestamped_touch t now old); [exact Ht | now apply Hall | reflexivity].
  - rewrite delete_cases.
    destruct (castObjectId id) as [e | oid]; [exact Hlater |].
    destruct (findOne oid coll) as [p|]; [| exact Hlater].
    destruct (validate p); [| exact Hlater].
    destruct (isActive p); [| exact Hlater]. simpl snd.
    apply Forall_forall. intros d Hd.
    apply updateOne_In in Hd as [Hd | (o & Ho & ->)].
    + rewrite Forall_forall in Hlater. now apply Hlater.
    + apply findOne_In in Ho as [Hin _]. rewrite Forall_forall in Hall.
      apply (timestamped_touch t now o); [exact Ht | now apply Hall | reflexivity].
Qed.

Lemma after_timestamped (rs : list Request) (t : Date) (coll : Collection) :
  nondecreasing t rs -> Forall (timestamped t) coll ->
  exists t', (t <= t')%Z /\ Forall (timestamped t') (after rs coll).
Proof.
  unfold after. revert t coll. induction rs as [|r rs IH]; intros t coll Hnd Hall.
  - exists t. split; [lia | exact Hall].
  - destruct Hnd as [Ht Hnd]. simpl.
    destruct (IH (time_of r) (snd (handle r coll)) Hnd
                (handle_timestamped t r coll Ht Hall)) as (t' & Ht' & H).
    exists t'. split; [lia | exact H].
Qed.

(** X14.  When the clock does not go back from one request to the next,
    every record carries both timestamps, and [createdAt] is no later
    than [updatedAt]. *)
Theorem X14_createdAt_before_updatedAt (t : Date) (rs : list Request) :
  nondecreasing t rs ->
  Forall (fun p => exists c u, createdAt p = Some c /\ updatedAt p = Some u
                               /\ (c <= u)%Z)
         (after rs []).
Proof.
  intros Hnd.
  destruct (after_timestamped rs t [] Hnd (Forall_nil _)) as (t' & _ & H).
  eapply Forall_impl; [| exact H].
  intros p (c & u & Hc & Hu & Hcu & _). now exists c, u.
Qed.

Lemma X14_witness :
  nondecreasing 0 session
  /\ Forall (fun p => exists c u, createdAt p = Some c /\ updatedAt p = Some u
                                  /\ (c <= u)%Z)
            (after session []).
Proof.
  assert (H : nondecreasing 0 session) by (simpl; lia).
  split; [exact H |].
  exact (X14_createdAt_before_updatedAt 0 session H).
Defined.

(* ================================================================== *)
(** * Stored strings are in normal form *)
(* ================================================================== *)

Lemma toLowerChar_space (c : ascii) :
  Js.isWhiteSpace (Js.toLowerChar c) = Js.isWhiteSpace c.
Proof.
  apply Bool.eqb_prop. revert c. apply forall_char. vm_compute. reflexivity.
Qed.

Lemma toLowerChar_idem (c : ascii) :
  Js.toLowerChar (Js.toLowerChar c) = Js.toLowerChar c.
Proof.
  apply Ascii.eqb_eq. revert c. apply forall_char. vm_compute. reflexivity.
Qed.

Lemma toLowerCase_idem (s : string) :
  Js.toLowerCase (Js.toLowerCase s) = Js.toLowerCase s.
Proof.
  unfold Js.toLowerCase. induction s as [|c s IH]; simpl; [reflexivity |].
  now rewrite toLowerChar_idem, IH.
Qed.

Lemma trimStart_toLowerCase (s : string) :
  Js.trimStart (Js.toLowerCase s) = Js.toLowerCase (Js.trimStart s).
Proof.
  unfold Js.toLowerCase. induction s as [|c s IH]; simpl; [reflexivity |].
  rewrite toLowerChar_space. now destruct (Js.isWhiteSpace c).
Qed.

Lemma trimEnd_toLowerCase (s : string) :
  Js.trimEnd (Js.toLowerCase s) = Js.toLowerCase (Js.trimEnd s).
Proof.
  unfold Js.toLowerCase. induction s as [|c s IH]; simpl; [reflexivity |].
  rewrite IH, toLowerChar_space.
  destruct (Js.trimEnd s); simpl; [now destruct (Js.isWhiteSpace c) | reflexivity].
Qed.

Lemma trim_toLowerCase (s : string) :
  Js.trim (Js.toLowerCase s) = Js.toLowerCase (Js.trim s).
Proof. unfold Js.trim. now rewrite trimStart_toLowerCase, trimEnd_toLowerCase. Qed.

Lemma set_email_idem (v : option string) : set_email (set_email v) = set_email v.
Proof.
  destruct v as [s|]; simpl; [| reflexivity].
  now rewrite trim_toLowerCase, trim_idem, toLowerCase_idem.
Qed.

Lemma trimmedAddress_cast (a : Address) : trimmedAddress (castAddress a).
Proof.
  unfold trimmedAddress, trimmed. simpl.
  repeat split; try apply set_trim_idem.
  destruct (country a); simpl; [now rewrite trim_idem | reflexivity].
Qed.

Lemma services_trimmed (l : list string) :
  Forall (fun s => Js.trim s = s) (map Js.trim l).
Proof.
  induction l as [|s l IH]; simpl; constructor; [apply trim_idem | exact IH].
Qed.

Lemma normalised_new (oid : ObjectId) (body : Fields) : normalised (new oid body).
Proof.
  unfold normalised, trimmed. simpl.
  repeat split; try apply set_trim_idem; try apply set_email_idem.
  - destruct (f_address body); simpl; [apply trimmedAddress_cast | exact I].
  - destruct (f_servicesOffered body); simpl; [apply services_trimmed | constructor].
Qed.

Lemma normalised_applySet (body : Fields) (old : Pharmacy) :
  normalised old -> normalised (applySet (castFields body) old).
Proof.
  unfold normalised, trimmed.
  intros (Hn & Ha & Hp & He & Hw & Hl & Hs). simpl.
  split; [| split; [| split; [| split; [| split; [| split]]]]].
  - destruct (f_name body); simpl; [now rewrite trim_idem | exact Hn].
  - destruct (f_address body); simpl; [apply trimmedAddress_cast | exact Ha].
  - destruct (f_phoneNumber body); simpl; [now rewrite trim_idem | exact Hp].
  - destruct (f_email body) as [e|]; simpl; [| exact He].
    now rewrite trim_toLowerCase, trim_idem, toLowerCase_idem.
  - destruct (f_website body); simpl; [now rewrite trim_idem | exact Hw].
  - destruct (f_licenseNumber body); simpl; [now rewrite trim_idem | exact Hl].
  - destruct (f_servicesOffered body); simpl; [apply services_trimmed | exact Hs].
Qed.

Lemma handle_normalised (r : Request) (coll : Collection) :
  Forall normalised coll -> Forall normalised (snd (handle r coll)).
Proof.
  intros Hall.
  destruct r as [oid now body | now id body | now id]; simpl.
  - rewrite post_cases. cbv zeta.
    destruct (validate _); [| exact Hall].
    destruct (duplicateKey _ _); [exact Hall |]. simpl snd.
    apply Forall_app. split; [exact Hall |]. constructor; [| constructor].
    exact (normalised_new oid (with_isActive None body)).
  - rewrite put_cases.
    destruct (castObjectId id) as [e | oid]; [exact Hall |].
    destruct (findOne oid coll) as [old|] eqn:Hf; [| exact Hall]. cbv zeta.
    destruct (validateUpdate _); [| exact Hall].
    destruct (keyTaken _ _ _); [exact Hall |]. simpl snd.
    apply Forall_forall. intros d Hd.
    apply updateOne_In in Hd as [Hd | (o & Ho & ->)].
    + rewrite Forall_forall in Hall. now apply Hall.
    + apply findOne_In in Hf as [Hin _]. rewrite Forall_forall in Hall.
      exact (normalised_applySet body old (Hall old Hin)).
  - rewrite delete_cases.
    destruct (castObjectId id) as [e | oid]; [exact Hall |].
    destruct (findOne oid coll) as [p|]; [| exact Hall].
    destruct (validate p); [| exact Hall].
    destruct (isActive p); [| exact Hall]. simpl snd.
    apply updateOne_Forall; [exact Hall |]. intros d Hd. exact Hd.
Qed.

(** X15.  Whatever requests are served, starting from the empty
    collection, the strings of every record are stored as the setters
    leave them: [name], [phoneNumber], [website], [licenseNumber], the
    sub-fields of [address] and the elements of [servicesOffered]
    without white space at either end, and [email] also in lower case. *)
Theorem X15_stored_strings_normalised (rs : list Request) :
  Forall normalised (after rs []).
Proof.
  unfold after.
  assert (H : forall coll, Forall normalised coll ->
                Forall normalised (fold_left (fun c r => snd (handle r c)) rs coll)).
  { induction rs as [|r rs IH]; intros coll Hall; simpl; [exact Hall |].
    apply IH. now apply handle_normalised. }
  apply H. constructor.
Qed.

(* ================================================================== *)
(** * The email of a payload, as it is given *)
(* ================================================================== *)

Lemma chars_map_string (f : ascii -> ascii) (s : string) :
  Js.chars (Js.map_string f s) = map f (Js.chars s).
Proof. induction s as [|c s IH]; simpl; [reflexivity | now f_equal]. Qed.

Lemma chars_append (s t : string) :
  Js.chars (s ++ t)%string = Js.chars s ++ Js.chars t.
Proof. induction s as [|c s IH]; simpl; [reflexivity | now f_equal]. Qed.

Lemma chars_nil (s : string) : Js.chars s = [] <-> s = "".
Proof. destruct s; simpl; split; congruence. Qed.

Lemma toLowerChar_at (c : ascii) :
  Js.toLowerChar c = "@"%char <-> c = "@"%char.
Proof.
  rewrite <- !Ascii.eqb_eq. apply eq_iff_eq_true.
  apply Bool.eqb_prop. revert c. apply forall_char. vm_compute. reflexivity.
Qed.

Lemma toLowerChar_dot (c : ascii) :
  Js.toLowerChar c = "."%char <-> c = "."%char.
Proof.
  rewrite <- !Ascii.eqb_eq. apply eq_iff_eq_true.
  apply Bool.eqb_prop. revert c. apply forall_char. vm_compute. reflexivity.
Qed.

Lemma isText_lower (l : list ascii) : isText (map Js.toLowerChar l) <-> isText l.
Proof.
  unfold isText. rewrite Forall_map. split; intros [Hne H]; split.
  - intros ->. now apply Hne.
  - eapply Forall_impl; [| exact H]. intros c Hc. cbv beta in Hc.
    now rewrite toLowerChar_space in Hc.
  - intros E. apply map_eq_nil in E. now apply Hne.
  - eapply Forall_impl; [| exact H]. intros c Hc. cbv beta.
    now rewrite toLowerChar_space.
Qed.

(** Letter case does not matter to the shape. *)
Lemma hasEmailShape_lower (s : string) :
  hasEmailShape (Js.toLowerCase s) <-> hasEmailShape s.
Proof.
  unfold hasEmailShape, Js.toLowerCase. rewrite chars_map_string. split.
  - intros (before & a & b & c & after & Heq & Ha & Hb & Hc).
    apply map_eq_app in Heq as (before' & r1 & -> & Hbefore & Heq).
    apply map_eq_app in Heq as (a' & r2 & -> & <- & Heq).
    apply map_eq_cons in Heq as (x & r3 & -> & Hx & Heq).
    apply map_eq_app in Heq as (b' & r4 & -> & <- & Heq).
    apply map_eq_cons in Heq as (y & r5 & -> & Hy & Heq).
    apply map_eq_app in Heq as (c' & after' & -> & <- & Hafter).
    apply (proj1 (toLowerChar_at x)) in Hx.
    apply (proj1 (toLowerChar_dot y)) in Hy. subst x y.
    exists before', a', b', c', after'. split; [reflexivity |].
    repeat split; now apply isText_lower.
  - intros (before & a & b & c & after & -> & Ha & Hb & Hc).
    exists (map Js.toLowerChar before), (map Js.toLowerChar a),
      (map Js.toLowerChar b), (map Js.toLowerChar c), (map Js.toLowerChar after).
    split; [| now rewrite !isText_lower].
    rewrite !map_app. simpl. rewrite !map_app. simpl. now rewrite !map_app.
Qed.

(** Leading white space comes off a list before its first character
    that is not white space. *)
Lemma space_prefix_split (ws rest before tail : list ascii) (x : ascii) :
  Forall (fun c => Js.isWhiteSpace c = true) ws ->
  Js.isWhiteSpace x = false ->
  ws ++ rest = before ++ x :: tail ->
  exists k, before = ws ++ k /\ rest = k ++ x :: tail.
Proof.
  intros Hws Hx. revert before. induction Hws as [|w ws Hw _ IH]; intros before Heq.
  - now exists before.
  - destruct before as [|b before]; simpl in Heq.
    + injection Heq as -> _. congruence.
    + injection Heq as -> Heq. destruct (IH before Heq) as (k & -> & ->).
      now exists k.
Qed.

Lemma space_suffix_split (ws rest tail after : list ascii) (y : ascii) :
  Forall (fun c => Js.isWhiteSpace c = true) ws ->
  Js.isWhiteSpace y = false ->
  rest ++ ws = tail ++ y :: after ->
  exists k, after = k ++ ws /\ rest = tail ++ y :: k.
Proof.
  intros Hws Hy Heq. apply (f_equal (@rev ascii)) in Heq.
  rewrite !rev_app_distr in Heq. simpl in Heq. rewrite <- app_assoc in Heq.
  simpl in Heq.
  destruct (space_prefix_split (rev ws) (rev rest) (rev after) (rev tail) y)
    as (k & Ha & Hr); [now apply Forall_rev | exact Hy | exact Heq |].
  exists (rev k). split.
  - apply (f_equal (@rev ascii)) in Ha. rewrite rev_involutive in Ha.
    now rewrite Ha, rev_app_distr, rev_involutive.
  - apply (f_equal (@rev ascii)) in Hr. rewrite rev_involutive in Hr.
    rewrite Hr, rev_app_distr. simpl. rewrite rev_involutive, <- app_assoc.
    reflexivity.
Qed.

Lemma trimStart_chars (s : string) :
  exists ws, Js.chars s = ws ++ Js.chars (Js.trimStart s)
             /\ Forall (fun c => Js.isWhiteSpace c = true) ws.
Proof.
  induction s as [|c s (ws & Heq & Hws)]; simpl.
  - now exists [].
  - destruct (Js.isWhiteSpace c) eqn:E.
    + exists (c :: ws). split; [simpl; now f_equal | now constructor].
    + now exists [].
Qed.

Lemma trimEnd_chars (s : string) :
  exists ws, Js.chars s = Js.chars (Js.trimEnd s) ++ ws
             /\ Forall (fun c => Js.isWhiteSpace c = true) ws.
Proof.
  induction s as [|c s (ws & Heq & Hws)]; simpl.
  - now exists [].
  - destruct (Js.trimEnd s) as [|d t] eqn:Ht.
    + destruct (Js.isWhiteSpace c) eqn:E.
      * exists (c :: ws). simpl in *. split; [now f_equal | now constructor].
      * exists ws. simpl in *. split; [now f_equal | exact Hws].
    + exists ws. split; [| exact Hws]. simpl in *. now f_equal.
Qed.

Lemma trim_chars (s : string) :
  exists ws1 ws2,
    Js.chars s = ws1 ++ Js.chars (Js.trim s) ++ ws2
    /\ Forall (fun c => Js.isWhiteSpace c = true) ws1
    /\ Forall (fun c => Js.isWhiteSpace c = true) ws2.
Proof.
  unfold Js.trim.
  destruct (trimStart_chars s) as (ws1 & H1 & Hws1).
  destruct (trimEnd_chars (Js.trimStart s)) as (ws2 & H2 & Hws2).
  exists ws1, ws2. split; [| now split]. now rewrite H1, H2.
Qed.

Lemma isText_first (l : list ascii) :
  isText l -> exists x l', l = x :: l' /\ Js.isWhiteSpace x = false.
Proof.
  intros [Hne H]. destruct l as [|x l']; [congruence |].
  inversion H; subst. now exists x, l'.
Qed.

Lemma isText_last (l : list ascii) :
  isText l -> exists l' y, l = l' ++ [y] /\ Js.isWhiteSpace y = false.
Proof.
  intros [Hne H]. destruct (exists_last Hne) as (l' & y & ->).
  exists l', y. split; [reflexivity |].
  apply Forall_app in H as [_ H]. now inversion H.
Qed.

(** White space at the two ends does not matter to the shape. *)
Lemma hasEmailShape_trim (s : string) :
  hasEmailShape (Js.trim s) <-> hasEmailShape s.
Proof.
  destruct (trim_chars s) as (ws1 & ws2 & Hs & Hws1 & Hws2).
  unfold hasEmailShape. split.
  - intros (before & a & b & c & after & Heq & Ha & Hb & Hc).
    exists (ws1 ++ before), a, b, c, (after ++ ws2). split; [| easy].
    rewrite Hs, Heq. repeat (rewrite <- ?app_assoc; simpl). reflexivity.
  - intros (before & a & b & c & after & Heq & Ha & Hb & Hc).
    destruct (isText_first a Ha) as (x & a0 & Ea & Hx).
    destruct (isText_last c Hc) as (c0 & y & Ec & Hy).
    rewrite Hs in Heq.
    assert (Heq1 : ws1 ++ (Js.chars (Js.trim s) ++ ws2)
                   = before ++ x :: (a0 ++ "@"%char :: b ++ "."%char :: c ++ after)).
    { rewrite Heq, Ea. reflexivity. }
    destruct (space_prefix_split _ _ _ _ _ Hws1 Hx Heq1) as (k1 & -> & Hrest).
    assert (Heq2 : Js.chars (Js.trim s) ++ ws2
                   = (k1 ++ x :: a0 ++ "@"%char :: b ++ "."%char :: c0)
                     ++ y :: after).
    { rewrite Hrest, Ec. repeat (rewrite <- ?app_assoc; simpl). reflexivity. }
    destruct (space_suffix_split _ _ _ _ _ Hws2 Hy Heq2) as (k2 & -> & Htrim).
    exists k1, a, b, c, k2. split; [| easy].
    rewrite Htrim, Ea, Ec. repeat (rewrite <- ?app_assoc; simpl). reflexivity.
Qed.

Lemma toLowerCase_empty (s : string) : Js.toLowerCase s = "" <-> s = "".
Proof. unfold Js.toLowerCase. destruct s; simpl; split; congruence. Qed.

(** What the schema accepts as [email], in terms of the value as the
    payload gives it. *)
Lemma emailAccepted_raw (e : string) :
  emailAccepted e <-> Js.trim e = "" \/ hasEmailShape e.
Proof.
  unfold emailAccepted.
  now rewrite toLowerCase_empty, hasEmailShape_lower, hasEmailShape_trim.
Qed.

Lemma hasEmailShape_within (before e after : string) :
  hasEmailShape e -> hasEmailShape (before ++ e ++ after)%string.
Proof.
  intros (l0 & a & b & c & l1 & Heq & Ha & Hb & Hc).
  exists (Js.chars before ++ l0), a, b, c, (l1 ++ Js.chars after).
  split; [| easy]. rewrite !chars_append, Heq.
  repeat (rewrite <- ?app_assoc; simpl). reflexivity.
Qed.

Lemma email_error_reported (oid : ObjectId) (now : Date) (body : Fields) :
  In ("email", regexp) (validate (set_timestamps now (new oid (with_isActive None body))))
  <-> exists e, f_email body = Some e /\ ~ emailAccepted e.
Proof.
  split.
  - intros H. apply email_error_validate in H. simpl in H.
    destruct (f_email body) as [e|]; [| destruct H].
    exists e. split; [reflexivity |]. apply v_match_email_rejects.
    intros E. now rewrite E in H.
  - intros (e & He & Hrej). apply v_match_email_rejects in Hrej.
    unfold validate. simpl. rewrite He. rewrite !in_app_iff.
    right; right; right; left.
    unfold v_match in *. destruct (checkMatch _ _); [congruence | now left].
Qed.

(** X16.  A create request gets a validation error on [email] exactly
    when the payload holds an email that is not blank and holds no
    text@text.text; letter case, white space at the ends and any text
    around the text@text.text do not matter, so an email inside a longer
    sentence raises no error. *)
Theorem X16_email_error_exactly
    (oid : ObjectId) (now : Date) (body : Fields) (coll : Collection) :
  ((exists errs, post oid now body coll = (validationFailed errs, coll)
                 /\ In ("email", regexp) errs)
   <-> exists e, f_email body = Some e /\ Js.trim e <> "" /\ ~ hasEmailShape e)
  /\ (forall before e after,
        hasEmailShape e ->
        f_email body = Some (before ++ e ++ after)%string ->
        forall errs, post oid now body coll = (validationFailed errs, coll) ->
                     ~ In ("email", regexp) errs).
Proof.
  assert (Hrep : (exists errs, post oid now body coll = (validationFailed errs, coll)
                               /\ In ("email", regexp) errs)
                 <-> exists e, f_email body = Some e /\ ~ emailAccepted e).
  { rewrite <- (email_error_reported oid now body). rewrite post_cases. cbv zeta.
    destruct (validate _) as [|x l].
    - split; [| intros []].
      intros (errs & H & _). destruct (duplicateKey _ _); discriminate.
    - split.
      + now intros (errs & [= <-] & H).
      + intros H. now exists (x :: l). }
  split.
  - rewrite Hrep. split; intros (e & He & H); exists e; (split; [exact He |]).
    + rewrite emailAccepted_raw in H. tauto.
    + rewrite emailAccepted_raw. tauto.
  - intros before e after Hshape He errs Hpost Hin.
    assert (H : exists errs, post oid now body coll = (validationFailed errs, coll)
                             /\ In ("email", regexp) errs) by (now exists errs).
    apply Hrep in H as (e' & He' & Hrej). rewrite He in He'. injection He' as <-.
    apply Hrej, emailAccepted_raw. right. now apply hasEmailShape_within.
Qed.

Lemma X16_witness :
  exists errs,
    post 2%N 2000 (with_email (Some "write to A@B.co today") onlyLicense) coll1
    = (validationFailed errs, coll1)
    /\ ~ In ("email", regexp) errs.
Proof.
  destruct (X16_email_error_exactly 2%N 2000
              (with_email (Some "write to A@B.co today") onlyLicense) coll1)
    as [_ H].
  eexists. split; [reflexivity |].
  apply (H "write to " "A@B.co" " today"); [| reflexivity | reflexivity].
  apply email_test. reflexivity.
Defined.

(* ================================================================== *)
(** * The license of a record that is soft deleted *)
(* ================================================================== *)

(** X17.  A soft delete does not free the license number: after the
    delete of a record, a create request with the license of that
    record, and a body that passes validation, is still answered 400
    with the duplicate license message, and nothing is inserted. *)
Theorem X17_deleted_license_stays_taken
    (now now' : Date) (id : string) (oid : ObjectId) (body : Fields)
    (coll : Collection) (p : Pharmacy) :
  wellFormed coll -> stored id coll p ->
  f_licenseNumber body = licenseNumber p ->
  validate (set_timestamps now' (new oid (with_isActive None body))) = [] ->
  post oid now' body (snd (delete now id coll))
  = (duplicateLicense, snd (delete now id coll)).
Proof.
  intros Hwf Hst Hlic Hv.
  pose proof (wf_ids _ Hwf) as Hnd.
  apply (stored_findOne _ _ _ Hnd) in Hst as [Hc Hf].
  pose proof (findOne_In _ _ _ Hf) as [Hin _].
  destruct (doc_ok_license p (wellFormed_In coll p Hwf Hin)) as (l & Hl & _ & Ht).
  destruct (wellFormed_In coll p Hwf Hin) as [Hvp _].
  assert (Hstill : exists q, In q (snd (delete now id coll))
                             /\ licenseNumber q = licenseNumber p).
  { rewrite delete_cases, Hc, Hf, Hvp. simpl snd.
    destruct (isActive p); [| now exists p].
    set (g := fun d => set_updatedAt now (set_isActive false d)).
    exists (g p). split; [| reflexivity].
    apply findOne_In with (oid := _id p).
    now apply (updateOne_findOne (_id p) g coll p (fun x Hx => Hx)). }
  destruct Hstill as (q & Hq & Hql).
  rewrite post_cases. cbv zeta. rewrite Hv.
  rewrite (duplicateKey_license _ _ q Hq); [reflexivity |].
  simpl. rewrite Hql, Hlic, Hl. simpl. now rewrite Ht.
Qed.

Lemma X17_witness :
  post 3%N 2000 acme (snd (delete 1500 id1 coll1)) = (duplicateLicense, [acme_inactive]).
Proof.
  assert (Hst : stored id1 coll1 acme_doc).
  { exists 1%N. split; [reflexivity |]. split; [now left | reflexivity]. }
  exact (X17_deleted_license_stays_taken 1500 2000 id1 3%N acme coll1 acme_doc
           wellFormed_coll1 Hst eq_refl eq_refl).
Defined.
